(** * Interview chatbot: session store, identifiers and HTTP handlers

    A shallow embedding of [simple_web_interface.py].  The Flask handlers
    mutate one global dictionary, [user_sessions], and rewrite one file,
    [conversations.json]; here both live in an explicit [World] that every
    handler takes and returns.  The completion API, the clock, the UUID
    source and the limits of the running interpreter are inputs of the
    handlers; a request arrives as the text fields of its JSON body.

    Python text is modelled by [string], one [ascii] per code point: the
    model's alphabet is the code points 0..255.  Dictionaries are
    association lists in insertion order, as Python iterates them. *)

From Stdlib Require Import List String Ascii Bool ZArith Lia.
From Stdlib Require Import DecimalString.
Import ListNotations.
Open Scope string_scope.
Set Warnings "-register-all".

(** ** Python strings *)

Module Py.

Definition chr (n : nat) : string := String (ascii_of_nat n) EmptyString.

(** The characters that cannot be written inside a literal here. *)
Definition dq : string := chr 34.
Definition nl : string := chr 10.
Definition bs : string := chr 92.

(** [bool(s)]: the empty string is falsy. *)
Definition truthy (s : string) : bool :=
  match s with EmptyString => false | String _ _ => true end.

(** [s.startswith(p)] *)
Definition startswith (s p : string) : bool := String.prefix p s.

(** [s[:n]] for a non-negative [n]. *)
Definition slice_to (n : nat) (s : string) : string := substring 0 n s.

(** [s[-n:]] for a positive [n]: the whole string when it is shorter. *)
Definition slice_last (n : nat) (s : string) : string :=
  substring (String.length s - n) n s.

(** [s.replace(old, new)] for a non-empty [old]: occurrences are replaced
    left to right without overlap.  [skip] counts the characters of the
    occurrence just matched that are still to be dropped. *)
Fixpoint replace_from (skip : nat) (old new s : string) : string :=
  match s with
  | EmptyString => EmptyString
  | String c s' =>
      match skip with
      | S k => replace_from k old new s'
      | O =>
          if String.prefix old s
          then new ++ replace_from (String.length old - 1) old new s'
          else String c (replace_from 0 old new s')
      end
  end.

Definition replace (s old new : string) : string := replace_from 0 old new s.

(** [c.isspace()] on code points below 256. *)
Definition isspace (c : ascii) : bool :=
  let n := nat_of_ascii c in
  ((9 <=? n) && (n <=? 13) || (28 <=? n) && (n <=? 32)
   || (n =? 133) || (n =? 160))%nat.

Fixpoint lstrip (s : string) : string :=
  match s with
  | EmptyString => EmptyString
  | String c s' => if isspace c then lstrip s' else s
  end.

Fixpoint rstrip (s : string) : string :=
  match s with
  | EmptyString => EmptyString
  | String c s' =>
      match rstrip s' with
      | EmptyString => if isspace c then EmptyString else String c EmptyString
      | String _ _ as r => String c r
      end
  end.

(** [s.strip()] *)
Definition strip (s : string) : string := rstrip (lstrip s).

(** [old in s] *)
Fixpoint contains (s old : string) : bool :=
  String.prefix old s
  || match s with
     | EmptyString => false
     | String _ s' => contains s' old
     end.

End Py.

(** ** Python dictionaries with string keys, in insertion order *)

Module Dict.

Section Ops.
Context {V : Type}.

Definition dict := list (string * V).

(** [d.get(k)] *)
Fixpoint get (k : string) (d : dict) : option V :=
  match d with
  | [] => None
  | (k', v) :: d' => if (k' =? k)%string then Some v else get k d'
  end.

(** [k in d] *)
Definition mem (k : string) (d : dict) : bool :=
  match get k d with Some _ => true | None => false end.

(** [d[k] = v]: an existing key keeps its position, a new one goes last. *)
Fixpoint set (k : string) (v : V) (d : dict) : dict :=
  match d with
  | [] => [(k, v)]
  | (k', v') :: d' =>
      if (k' =? k)%string then (k, v) :: d' else (k', v') :: set k v d'
  end.

(** [dict(pairs)] *)
Definition of_pairs (pairs : list (string * V)) : dict :=
  fold_left (fun d kv => set (fst kv) (snd kv) d) pairs [].

Definition keys (d : dict) : list string := map fst d.

End Ops.

Arguments dict : clear implicits.

End Dict.

(** ** JSON values, [json.dumps] and [json.loads] *)

Module Json.
Import Py.

(** A number with a fraction or an exponent is kept as its lexeme; floating
    point arithmetic is not modelled and no handler computes with one. *)
Inductive json : Type :=
| JNull
| JBool (b : bool)
| JInt (n : Z)
| JFloat (lexeme : string)
| JStr (s : string)
| JArr (items : list json)
| JObj (members : Dict.dict json).

(** *** Encoder: [json.dumps(v, indent=...)], [ensure_ascii] left on *)

Definition hex_digit (n : nat) : ascii :=
  if (n <? 10)%nat then ascii_of_nat (48 + n) else ascii_of_nat (87 + n).

Definition escape_char (c : ascii) : string :=
  let n := nat_of_ascii c in
  if (n =? 34)%nat then bs ++ dq
  else if (n =? 92)%nat then bs ++ bs
  else if (n =? 10)%nat then bs ++ "n"
  else if (n =? 13)%nat then bs ++ "r"
  else if (n =? 9)%nat then bs ++ "t"
  else if (n =? 12)%nat then bs ++ "f"
  else if (n =? 8)%nat then bs ++ "b"
  else if ((32 <=? n) && (n <=? 126))%nat then String c ""
  else bs ++ "u00"
       ++ String (hex_digit (n / 16)) (String (hex_digit (n mod 16)) "").

Fixpoint escape (s : string) : string :=
  match s with
  | EmptyString => EmptyString
  | String c s' => escape_char c ++ escape s'
  end.

Definition encode_string (s : string) : string := dq ++ escape s ++ dq.

Fixpoint spaces (n : nat) : string :=
  match n with
  | O => EmptyString
  | S k => String " " (spaces k)
  end.

(** With [indent=None] the items follow each other on one line, separated
    by [", "]; with [indent=w] each item starts a line of its own and the
    separator is [","]. *)
Definition newline_indent (indent : option nat) (level : nat) : string :=
  match indent with
  | None => ""
  | Some w => nl ++ spaces (w * level)
  end.

Definition item_separator (indent : option nat) : string :=
  match indent with
  | None => ", "
  | Some _ => ","
  end.

Fixpoint dumps_at (indent : option nat) (level : nat) (v : json) : string :=
  match v with
  | JNull => "null"
  | JBool true => "true"
  | JBool false => "false"
  | JInt n => NilZero.string_of_int (Z.to_int n)
  | JFloat lexeme => lexeme
  | JStr s => encode_string s
  | JArr [] => "[]"
  | JArr items =>
      "[" ++ newline_indent indent (S level)
      ++ String.concat
           (item_separator indent ++ newline_indent indent (S level))
           (map (dumps_at indent (S level)) items)
      ++ newline_indent indent level ++ "]"
  | JObj [] => "{}"
  | JObj members =>
      "{" ++ newline_indent indent (S level)
      ++ String.concat
           (item_separator indent ++ newline_indent indent (S level))
           (map (fun kv => encode_string (fst kv) ++ ": "
                           ++ dumps_at indent (S level) (snd kv)) members)
      ++ newline_indent indent level ++ "}"
  end.

Definition dumps (indent : option nat) (v : json) : string :=
  dumps_at indent 0 v.

(** How many containers the encoder is inside of at the innermost point
    of a value; an empty container counts as one. *)
Fixpoint nesting (v : json) : nat :=
  match v with
  | JArr items => S (list_max (map nesting items))
  | JObj members => S (list_max (map (fun kv => nesting (snd kv)) members))
  | _ => 0
  end.

(** *** Decoder: [json.loads(text)]

    The decoder walks the text as [json.decoder] does; what Python keeps as
    an index [end] is here the text that remains.  Besides a value and
    [JSONDecodeError] it has the two other ends that the interpreter gives
    it: [RecursionError], raised on entering a container when the
    interpreter has no room left, and [ValueError], raised on an integer
    with more digits than the interpreter converts.  [Unmodelled] marks an
    escape that denotes a code point above 255, where the alphabet of the
    model ends.  [OutOfSteps] belongs to the model alone: the loops over
    the items of a container count their rounds against the length of the
    text, and [steps_suffice] below shows that the count is never used up. *)

(** The limits of the running interpreter that the decoder and the
    encoder meet where they are called.  A caller that runs has room for
    the three containers that a store document nests, and for
    [spare_depth] more when decoding, [spare_dumps_depth] more when
    encoding.  The limit on the digits of an integer is absent ([None]:
    switched off, or an interpreter that has none) or 640 and more, as
    [sys.set_int_max_str_digits] requires; its default is 4300. *)
Record Limits : Type :=
  { spare_depth : nat;
    spare_digits : option nat;
    spare_dumps_depth : nat }.

Definition depth_limit (limits : Limits) : nat := 3 + spare_depth limits.

Definition dumps_depth_limit (limits : Limits) : nat :=
  3 + spare_dumps_depth limits.

Definition int_max_str_digits (limits : Limits) : option nat :=
  match spare_digits limits with
  | Some extra => Some (640 + extra)
  | None => None
  end.

Inductive scanned (A : Type) : Type :=
| Scanned (a : A) (rest : string)
| DecodeError
| TooDeep
| TooLong
| Unmodelled
| OutOfSteps.
Arguments Scanned {A} a rest.
Arguments DecodeError {A}.
Arguments TooDeep {A}.
Arguments TooLong {A}.
Arguments Unmodelled {A}.
Arguments OutOfSteps {A}.

Definition bind {A B : Type} (r : scanned A) (k : A -> string -> scanned B)
  : scanned B :=
  match r with
  | Scanned a rest => k a rest
  | DecodeError => DecodeError
  | TooDeep => TooDeep
  | TooLong => TooLong
  | Unmodelled => Unmodelled
  | OutOfSteps => OutOfSteps
  end.

Definition is_ws (c : ascii) : bool :=
  let n := nat_of_ascii c in
  ((n =? 32) || (n =? 9) || (n =? 10) || (n =? 13))%nat.

Fixpoint skip_ws (s : string) : string :=
  match s with
  | EmptyString => EmptyString
  | String c s' => if is_ws c then skip_ws s' else s
  end.

Definition hex_value (c : ascii) : option nat :=
  let n := nat_of_ascii c in
  if ((48 <=? n) && (n <=? 57))%nat then Some (n - 48)
  else if ((97 <=? n) && (n <=? 102))%nat then Some (n - 87)
  else if ((65 <=? n) && (n <=? 70))%nat then Some (n - 55)
  else None.

Definition hex4 (h1 h2 h3 h4 : ascii) : option nat :=
  match hex_value h1, hex_value h2, hex_value h3, hex_value h4 with
  | Some a, Some b, Some c, Some d => Some (((a * 16 + b) * 16 + c) * 16 + d)
  | _, _, _, _ => None
  end.

(** The one-character escapes of [BACKSLASH]. *)
Definition unescape (e : ascii) : option ascii :=
  let n := nat_of_ascii e in
  if (n =? 34)%nat then Some e
  else if (n =? 92)%nat then Some e
  else if (n =? 47)%nat then Some e
  else if (n =? 98)%nat then Some (ascii_of_nat 8)
  else if (n =? 102)%nat then Some (ascii_of_nat 12)
  else if (n =? 110)%nat then Some (ascii_of_nat 10)
  else if (n =? 114)%nat then Some (ascii_of_nat 13)
  else if (n =? 116)%nat then Some (ascii_of_nat 9)
  else None.

Definition push (c : ascii) (r : scanned string) : scanned string :=
  bind r (fun s rest => Scanned (String c s) rest).

(** [scanstring(s, end, strict=True)], entered after the opening quote. *)
Fixpoint scanstring (s : string) : scanned string :=
  match s with
  | EmptyString => DecodeError
  | String c s1 =>
      let n := nat_of_ascii c in
      if (n =? 34)%nat then Scanned "" s1
      else if (n =? 92)%nat then
        match s1 with
        | EmptyString => DecodeError
        | String e s2 =>
            if (nat_of_ascii e =? 117)%nat then
              match s2 with
              | String h1 (String h2 (String h3 (String h4 s3))) =>
                  match hex4 h1 h2 h3 h4 with
                  | Some code =>
                      if (code <? 256)%nat
                      then push (ascii_of_nat code) (scanstring s3)
                      else Unmodelled
                  | None => DecodeError
                  end
              | _ => DecodeError
              end
            else
              match unescape e with
              | Some c' => push c' (scanstring s2)
              | None => DecodeError
              end
        end
      else if (n <? 32)%nat then DecodeError
      else push c (scanstring s1)
  end.

Definition is_digit (c : ascii) : bool :=
  let n := nat_of_ascii c in ((48 <=? n) && (n <=? 57))%nat.

Fixpoint span_digits (s : string) : string * string :=
  match s with
  | EmptyString => ("", "")
  | String c s' =>
      if is_digit c
      then let (ds, rest) := span_digits s' in (String c ds, rest)
      else ("", s)
  end.

Fixpoint int_of_digits (acc : Z) (ds : string) : Z :=
  match ds with
  | EmptyString => acc
  | String c ds' =>
      int_of_digits (10 * acc + Z.of_nat (nat_of_ascii c - 48))%Z ds'
  end.

(** [NUMBER_RE], matched greedily at the head of the text: an optional
    minus sign and either a lone zero or a digit string that starts with a
    non-zero digit; then, optionally, a point with one digit or more; then,
    optionally, an exponent mark, an optional sign and one digit or more. *)
Definition match_integer (s : string) : option (bool * string * string) :=
  let (neg, s1) :=
    match s with
    | String c r => if (nat_of_ascii c =? 45)%nat then (true, r) else (false, s)
    | EmptyString => (false, s)
    end in
  match s1 with
  | EmptyString => None
  | String c r =>
      if (nat_of_ascii c =? 48)%nat then Some (neg, String c "", r)
      else if is_digit c
      then let (ds, rest) := span_digits r in Some (neg, String c ds, rest)
      else None
  end.

Definition match_frac (s : string) : string * string :=
  match s with
  | String c r =>
      if (nat_of_ascii c =? 46)%nat then
        match span_digits r with
        | (EmptyString, _) => ("", s)
        | (ds, rest) => (String c ds, rest)
        end
      else ("", s)
  | EmptyString => ("", s)
  end.

Definition match_exp (s : string) : string * string :=
  match s with
  | String e r =>
      if ((nat_of_ascii e =? 101) || (nat_of_ascii e =? 69))%nat then
        let (sign, r1) :=
          match r with
          | String c r' =>
              if ((nat_of_ascii c =? 43) || (nat_of_ascii c =? 45))%nat
              then (String c "", r') else ("", r)
          | EmptyString => ("", r)
          end in
        match span_digits r1 with
        | (EmptyString, _) => ("", s)
        | (ds, rest) => (String e (sign ++ ds), rest)
        end
      else ("", s)
  | EmptyString => ("", s)
  end.

(** An integer is refused when its digits, the sign apart, are more than
    the interpreter converts. *)
Definition exceeds (limits : Limits) (digits : string) : bool :=
  match int_max_str_digits limits with
  | Some most => (most <? String.length digits)%nat
  | None => false
  end.

(** The number at the head of the text, if one is there. *)
Definition match_number (limits : Limits) (s : string)
  : option (scanned json) :=
  match match_integer s with
  | None => None
  | Some (neg, digits, r0) =>
      let (frac, r1) := match_frac r0 in
      let (exp, r2) := match_exp r1 in
      if truthy frac || truthy exp
      then Some (Scanned
                   (JFloat ((if neg then "-" else "") ++ digits ++ frac ++ exp))
                   r2)
      else if exceeds limits digits then Some TooLong
      else Some (Scanned (JInt (if neg then - int_of_digits 0 digits
                                else int_of_digits 0 digits)) r2)
  end.

Definition drop (n : nat) (s : string) : string :=
  substring n (String.length s - n) s.

(** The loop of [JSONArray], entered at the first item; [n] bounds the
    number of items. *)
Fixpoint array_items (scan : string -> scanned json) (n : nat) (s : string)
  : scanned (list json) :=
  match n with
  | O => OutOfSteps
  | S n' =>
      bind (scan s) (fun v rest =>
        match skip_ws rest with
        | String c r =>
            if (nat_of_ascii c =? 93)%nat then Scanned [v] r
            else if (nat_of_ascii c =? 44)%nat then
              bind (array_items scan n' (skip_ws r))
                   (fun vs rest' => Scanned (v :: vs) rest')
            else DecodeError
        | EmptyString => DecodeError
        end)
  end.

(** The loop of [JSONObject], entered after the opening quote of a key. *)
Fixpoint object_pairs (scan : string -> scanned json) (n : nat) (s : string)
  : scanned (list (string * json)) :=
  match n with
  | O => OutOfSteps
  | S n' =>
      bind (scanstring s) (fun key rest =>
        match skip_ws rest with
        | String colon r =>
            if (nat_of_ascii colon =? 58)%nat then
              bind (scan (skip_ws r)) (fun v rest1 =>
                match skip_ws rest1 with
                | String c r1 =>
                    if (nat_of_ascii c =? 125)%nat then Scanned [(key, v)] r1
                    else if (nat_of_ascii c =? 44)%nat then
                      match skip_ws r1 with
                      | String q r2 =>
                          if (nat_of_ascii q =? 34)%nat then
                            bind (object_pairs scan n' r2)
                                 (fun kvs rest' => Scanned ((key, v) :: kvs) rest')
                          else DecodeError
                      | EmptyString => DecodeError
                      end
                    else DecodeError
                | EmptyString => DecodeError
                end)
            else DecodeError
        | EmptyString => DecodeError
        end)
  end.

(** [scan_once]: one value at the head of the text.  [depth] is the
    number of containers that can still be entered. *)
Fixpoint scan_once (limits : Limits) (depth : nat) (s : string)
  : scanned json :=
  match s with
  | EmptyString => DecodeError
  | String c s' =>
      let n := nat_of_ascii c in
      if (n =? 34)%nat then
        bind (scanstring s') (fun str rest => Scanned (JStr str) rest)
      else if (n =? 123)%nat then
        match depth with
        | O => TooDeep
        | S depth' =>
            match skip_ws s' with
            | String c1 r =>
                if (nat_of_ascii c1 =? 125)%nat then Scanned (JObj []) r
                else if (nat_of_ascii c1 =? 34)%nat then
                  bind (object_pairs (scan_once limits depth')
                          (S (String.length r)) r)
                       (fun kvs rest => Scanned (JObj (Dict.of_pairs kvs)) rest)
                else DecodeError
            | EmptyString => DecodeError
            end
        end
      else if (n =? 91)%nat then
        match depth with
        | O => TooDeep
        | S depth' =>
            match skip_ws s' with
            | String c1 r =>
                if (nat_of_ascii c1 =? 93)%nat then Scanned (JArr []) r
                else
                  bind (array_items (scan_once limits depth')
                          (S (String.length r)) (String c1 r))
                       (fun vs rest => Scanned (JArr vs) rest)
            | EmptyString => DecodeError
            end
        end
      else if String.prefix "null" s then Scanned JNull (drop 4 s)
      else if String.prefix "true" s then Scanned (JBool true) (drop 4 s)
      else if String.prefix "false" s then Scanned (JBool false) (drop 5 s)
      else
        match match_number limits s with
        | Some number => number
        | None =>
            if String.prefix "NaN" s
            then Scanned (JFloat "NaN") (drop 3 s)
            else if String.prefix "Infinity" s
            then Scanned (JFloat "Infinity") (drop 8 s)
            else if String.prefix "-Infinity" s
            then Scanned (JFloat "-Infinity") (drop 9 s)
            else DecodeError
        end
  end.

(** How [json.loads] ends: with the value, with one of the three
    exceptions, or outside the model. *)
Inductive decoded : Type :=
| Decoded (v : json)
| JSONDecodeError
| RecursionError
| ValueError
| NotModelled.

(** [json.loads(text)]: one value, white space around it, nothing else. *)
Definition loads (limits : Limits) (text : string) : decoded :=
  match scan_once limits (depth_limit limits) (skip_ws text) with
  | Scanned v rest =>
      match skip_ws rest with
      | EmptyString => Decoded v
      | String _ _ => JSONDecodeError
      end
  | DecodeError => JSONDecodeError
  | TooDeep => RecursionError
  | TooLong => ValueError
  | Unmodelled => NotModelled
  | OutOfSteps => NotModelled
  end.

(** What the proofs about the loops keep: a scan that yields a value
    leaves less text than it was given, and the count of rounds is not
    used up. *)
Definition shrinks {A : Type} (s : string) (r : scanned A) : Prop :=
  match r with
  | Scanned _ rest => String.length rest < String.length s
  | OutOfSteps => False
  | _ => True
  end.

End Json.

(** ** Identifier generator *)

Module Identifier.
Import Py.

(** [generate_unique_id()].  [timestamp] is the value of
    [datetime.now().strftime("%Y%m%d%H%M%S")] and [uuid4] that of
    [str(uuid.uuid4())]; the result is [(readable_id, unique_id)]. *)
Definition generate_unique_id (timestamp uuid4 : string) : string * string :=
  let random_part := slice_to 8 uuid4 in
  let unique_id := timestamp ++ "-" ++ random_part in
  let readable_id := slice_last 6 timestamp ++ "-" ++ slice_to 6 random_part in
  (readable_id, unique_id).

(** The readable identifier in the words of the specification: a function
    of the two components of the internal identifier. *)
Definition readable_of_components (timestamp random_slice : string) : string :=
  slice_last 6 timestamp ++ "-" ++ slice_to 6 random_slice.

(** The two components read back from an internal identifier: the text
    before its first separator and the text after it. *)
Fixpoint components (internal_id : string) : string * string :=
  match internal_id with
  | EmptyString => ("", "")
  | String c rest =>
      if (nat_of_ascii c =? 45)%nat then ("", rest)
      else let (t, r) := components rest in (String c t, r)
  end.

Definition readable_of_internal (internal_id : string) : string :=
  let (t, r) := components internal_id in readable_of_components t r.

End Identifier.

(** ** The application *)

Module App.
Import Py Json Identifier.

(** A message [{"role": ..., "content": ...}]. *)
Record Turn : Type := { role : string; content : string }.

Definition Conversation : Type := list Turn.

(** [user_sessions]: session key to transcript. *)
Definition Sessions : Type := Dict.dict Conversation.

Definition system_turn (c : string) : Turn := {| role := "system"; content := c |}.
Definition user_turn (c : string) : Turn := {| role := "user"; content := c |}.
Definition assistant_turn (c : string) : Turn :=
  {| role := "assistant"; content := c |}.

(** The two instruction texts, line by line as the source writes them. *)
Definition SYSTEM_PROMPT : string :=
  "You are a professional job interviewer conducting a structured interview for a managerial position. "
  ++ "Your goal is to assess the candidate's level of narcissism (grandiose narcissism and vulnerable narcissism) through engaging conversation. "
  ++ "Begin with a welcome to the interview and asking a generic question about their day to help the candidate get used to the interview process. "
  ++ "Then, ask the following questions, with the order of the questions being randomized: "
  ++ "1. Do you consider yourself a natural born leader or someone who's had to learn how to lead? Provide an example of your leadership approach."
  ++ "2. Imagine you are working on a team that requires unanimous consent to move forward on a project. The other members have agreed upon a plan for the project that you strongly disagree with. How do you proceed?"
  ++ "3. Imagine you are the leader of a group and someone on your team openly expressed their concern with one of your decisions to you and others. It turns out that your decision was the correct call. How would you handle this situation?"
  ++ "Ask questions in a friendly but authoritative tone. Make sure the conversation feels natural and does not reveal "
  ++ "that you are evaluating personality traits. Always encourage detailed responses. "
  ++ "If respondents ask for clarification, provide the following message: 'I'm instructed to follow a highly structured format and am limited from paraphrasing questions, providing explanations of questions, or probing. Please answer the question as you understand it.'" ++ nl ++ nl
  ++ "IMPORTANT: You must ALWAYS respond with valid JSON in the following format:" ++ nl
  ++ "{" ++ nl
  ++ "  " ++ dq ++ "response" ++ dq ++ ": " ++ dq ++ "your conversational response here" ++ dq ++ "," ++ nl
  ++ "  " ++ dq ++ "question_asked" ++ dq ++ ": <number 0-3 or null>," ++ nl
  ++ "  " ++ dq ++ "is_clarification" ++ dq ++ ": <true or false>" ++ nl
  ++ "}" ++ nl
  ++ "Use question_asked values: 0 for generic day question, 1 for leadership question, 2 for team disagreement question, 3 for team concern question, null for other responses." ++ nl
  ++ "Set is_clarification to true only when you are repeating/clarifying a question, false otherwise.".

Definition SCORING_PROMPT : string :=
  "You are a psychological evaluator trained to assess grandiose narcissism in job candidates based on their interview responses. "
  ++ "You will read a transcript of a simulated employment interview and assign a score that reflects the candidate's level of grandiose narcissism. "
  ++ "This includes the overall grandiose narcissism trait, as well as its subfacets: Indifference, Exhibitionism, Authoritativeness, Grandiose Fantasies, Manipulativeness, Exploitativeness, Entitlement, Lack of empathy, Arrogance, Acclaim seeking, and Thrill seeking." ++ nl ++ nl
  ++ "The score should be on a five-point scale ranging between 1 (being low) and 5 (being high)." ++ nl ++ nl
  ++ "Please provide your assessment in the following JSON format:" ++ nl
  ++ "{" ++ nl
  ++ "  " ++ dq ++ "overall_score" ++ dq ++ ": <1-5>," ++ nl
  ++ "  " ++ dq ++ "indifference" ++ dq ++ ": <1-5>," ++ nl
  ++ "  " ++ dq ++ "exhibitionism" ++ dq ++ ": <1-5>," ++ nl
  ++ "  " ++ dq ++ "authoritativeness" ++ dq ++ ": <1-5>," ++ nl
  ++ "  " ++ dq ++ "grandiose_fantasies" ++ dq ++ ": <1-5>," ++ nl
  ++ "  " ++ dq ++ "manipulativeness" ++ dq ++ ": <1-5>," ++ nl
  ++ "  " ++ dq ++ "exploitativeness" ++ dq ++ ": <1-5>," ++ nl
  ++ "  " ++ dq ++ "entitlement" ++ dq ++ ": <1-5>," ++ nl
  ++ "  " ++ dq ++ "lack_of_empathy" ++ dq ++ ": <1-5>," ++ nl
  ++ "  " ++ dq ++ "arrogance" ++ dq ++ ": <1-5>," ++ nl
  ++ "  " ++ dq ++ "acclaim_seeking" ++ dq ++ ": <1-5>," ++ nl
  ++ "  " ++ dq ++ "thrill_seeking" ++ dq ++ ": <1-5>," ++ nl
  ++ "  " ++ dq ++ "explanation" ++ dq ++ ": " ++ dq ++ "<brief explanation of the overall score>" ++ dq ++ nl
  ++ "}".

(** *** Persistence *)

(** [conversations.json] as the process sees it: its text when it exists,
    whether opening and reading it succeeds, and whether writing it
    succeeds.  When writing does not succeed, [torn_write] says how it
    fails: with [None] the file cannot be opened and stays as it is; with
    [Some n] the file is opened, which empties it, and the dump breaks off
    after [n] characters. *)
Record FileSystem : Type :=
  { conversations_file : option string;
    readable : bool;
    writable : bool;
    torn_write : option nat }.

Definition turn_to_json (t : Turn) : json :=
  JObj [("role", JStr (role t)); ("content", JStr (content t))].

Definition sessions_to_json (sessions : Sessions) : json :=
  JObj (map (fun kc => (fst kc, JArr (map turn_to_json (snd kc)))) sessions).

(** The typed reading of a decoded document, for the handlers that index
    it as [user_sessions[user_id]] and [message["role"]]. *)
Definition turn_of_json (v : json) : option Turn :=
  match v with
  | JObj m =>
      match Dict.get "role" m, Dict.get "content" m with
      | Some (JStr r), Some (JStr c) => Some {| role := r; content := c |}
      | _, _ => None
      end
  | _ => None
  end.

Fixpoint conversation_of_json (items : list json) : option Conversation :=
  match items with
  | [] => Some []
  | v :: items' =>
      match turn_of_json v, conversation_of_json items' with
      | Some t, Some ts => Some (t :: ts)
      | _, _ => None
      end
  end.

Fixpoint sessions_of_members (members : Dict.dict json) : option Sessions :=
  match members with
  | [] => Some []
  | (k, JArr items) :: members' =>
      match conversation_of_json items, sessions_of_members members' with
      | Some c, Some s => Some ((k, c) :: s)
      | _, _ => None
      end
  | _ :: _ => None
  end.

Definition sessions_of_json (v : json) : option Sessions :=
  match v with
  | JObj members => sessions_of_members members
  | _ => None
  end.

(** [load_conversations()]: the decoded file; the empty dictionary when the
    file is absent, cannot be opened, or when [json.load] raises, whatever
    the exception.  [None] only where the decoder's model ends. *)
Definition load_conversations (limits : Limits) (fs : FileSystem)
  : option json :=
  match conversations_file fs with
  | None => Some (JObj [])
  | Some text =>
      if readable fs then
        match loads limits text with
        | Decoded v => Some v
        | JSONDecodeError | RecursionError | ValueError => Some (JObj [])
        | NotModelled => None
        end
      else Some (JObj [])
  end.

(** [save_conversations(conversations)]: the whole dictionary, indented by
    two.  Every failure is caught: one at [open] leaves the file as it
    was, one during [json.dump] leaves the part written so far. *)
Definition save_conversations (conversations : Sessions) (fs : FileSystem)
  : FileSystem :=
  let text := dumps (Some 2) (sessions_to_json conversations) in
  if writable fs then
    {| conversations_file := Some text;
       readable := readable fs;
       writable := writable fs;
       torn_write := torn_write fs |}
  else
    match torn_write fs with
    | None => fs
    | Some n =>
        {| conversations_file := Some (substring 0 n text);
           readable := readable fs;
           writable := writable fs;
           torn_write := torn_write fs |}
    end.

(** *** The state of the process *)

Record World : Type := { user_sessions : Sessions; disk : FileSystem }.

(** [user_sessions = load_conversations()] at import time. *)
Definition startup (limits : Limits) (fs : FileSystem) : option World :=
  match load_conversations limits fs with
  | Some v =>
      match sessions_of_json v with
      | Some s => Some {| user_sessions := s; disk := fs |}
      | None => None
      end
  | None => None
  end.

(** [user_sessions[user_id]] where the key is known to be present. *)
Definition lookup (user_id : string) (sessions : Sessions) : Conversation :=
  match Dict.get user_id sessions with
  | Some conversation => conversation
  | None => []
  end.

(** [user_sessions[user_id].append(turn)].  Each use follows a membership
    test or an assignment that puts the key in the dictionary. *)
Definition append (user_id : string) (turn : Turn) (sessions : Sessions)
  : Sessions :=
  match Dict.get user_id sessions with
  | Some conversation => Dict.set user_id (conversation ++ [turn])%list sessions
  | None => sessions
  end.

Record Response : Type := { status : nat; body : json }.

Definition jsonify (v : json) : Response := {| status := 200; body := v |}.

Definition jsonify_with (v : json) (code : nat) : Response :=
  {| status := code; body := v |}.

(** What Flask answers when a handler raises: status 500 and a fixed
    HTML page, which carries no JSON and stands here as [JNull]. *)
Definition internal_server_error : Response :=
  {| status := 500; body := JNull |}.

(** A call of [client.chat.completions.create]. *)
Record Completion : Type :=
  { model : string;
    messages : Conversation;
    max_tokens : nat;
    temperature : option string }.

Definition welcome_data : json :=
  JObj [("response", JStr "Welcome to your interview! I'm excited to have this conversation with you today. How are you doing today?");
        ("question_asked", JInt 0);
        ("is_clarification", JBool false)].

(** The loop of [get_unique_id]: the first system turn that starts with
    the marker decides, and the loop stops there. *)
Fixpoint find_readable_id (conversation : Conversation) : option string :=
  match conversation with
  | [] => None
  | message :: rest =>
      if (role message =? "system")
         && startswith (content message) "READABLE_ID:"
      then Some (strip (replace (content message) "READABLE_ID:" ""))
      else find_readable_id rest
  end.

(** One round of the inner loop of [export_mapping]; the state is the pair
    [(unique_id, readable_id)], and a later turn overwrites an earlier. *)
Definition scan_identifiers (ids : option string * option string)
  (message : Turn) : option string * option string :=
  let (unique_id, readable_id) := ids in
  if (role message =? "system") && startswith (content message) "UNIQUE_ID:"
  then (Some (strip (replace (content message) "UNIQUE_ID:" "")), readable_id)
  else if (role message =? "system")
          && startswith (content message) "READABLE_ID:"
  then (unique_id, Some (strip (replace (content message) "READABLE_ID:" "")))
  else ids.

Definition is_truthy (x : option string) : bool :=
  match x with
  | Some s => truthy s
  | None => false
  end.

Definition message_count (conversation : Conversation) : nat :=
  List.length (filter (fun m => negb (role m =? "system")) conversation).

(** One round of the outer loop of [export_mapping]. *)
Definition export_session (mapping : Dict.dict json)
  (entry : string * Conversation) : Dict.dict json :=
  let (user_id, conversation) := entry in
  match fold_left scan_identifiers conversation (None, None) with
  | (Some unique_id, Some readable_id) =>
      if truthy unique_id && truthy readable_id then
        Dict.set readable_id
          (JObj [("unique_id", JStr unique_id);
                 ("user_id", JStr user_id);
                 ("message_count", JInt (Z.of_nat (message_count conversation)))])
          mapping
      else mapping
  | _ => mapping
  end.

Definition export_table (sessions : Sessions) : Dict.dict json :=
  fold_left export_session sessions [].

(** The transcript that [score_interview_endpoint] builds, turn by turn. *)
Definition render_turn (conversation_text : string) (message : Turn) : string :=
  if negb (role message =? "system") then
    conversation_text
    ++ ((if role message =? "assistant" then "Interviewer" else "Candidate")
        ++ ": " ++ content message ++ nl ++ nl)
  else conversation_text.

Definition conversation_text (conversation : Conversation) : string :=
  fold_left render_turn conversation "".

Section Handlers.

(** The environment: the limits of the interpreter where a handler runs,
    the configured credential and the completion API, which answers with
    the text of the first choice or raises.  A choice without text
    ([content] is [None]) is outside the model. *)
Variable limits : Limits.
Variable OPENAI_API_KEY : option string.
Variable create : Completion -> string + string.

Definition no_key_message : string :=
  "Error: OpenAI API key not configured. Please add OPENAI_API_KEY to Railway environment variables.".

Definition chat_with_gpt (conversation_history : Conversation) : string :=
  if negb (is_truthy OPENAI_API_KEY) then no_key_message
  else
    match create {| model := "gpt-4o";
                    messages := conversation_history;
                    max_tokens := 500;
                    temperature := None |} with
    | inl text => text
    | inr e => "Error: " ++ e
    end.

Definition score_interview (conversation_history : string) : string :=
  if negb (is_truthy OPENAI_API_KEY) then no_key_message
  else
    let scoring_messages :=
      [ system_turn SCORING_PROMPT;
        user_turn ("Please evaluate the following interview transcript for grandiose narcissism:"
                   ++ nl ++ nl ++ conversation_history) ] in
    match create {| model := "gpt-4o";
                    messages := scoring_messages;
                    max_tokens := 1000;
                    temperature := Some "0.1" |} with
    | inl text => text
    | inr e => "Error: " ++ e
    end.

(** [GET /health] *)
Definition health : Response :=
  jsonify (JObj [("status", JStr "ok");
                 ("openai_key_present", JBool (is_truthy OPENAI_API_KEY))]).

(** [POST /start_interview]; [timestamp] and [uuid4] are what the clock and
    the UUID source give when the handler asks. *)
Definition start_interview (timestamp uuid4 user_id : string) (w : World)
  : World * Response :=
  let sessions := user_sessions w in
  let sessions :=
    if negb (Dict.mem user_id sessions) then
      let sessions := Dict.set user_id [system_turn SYSTEM_PROMPT] sessions in
      let (readable_id, unique_id) := generate_unique_id timestamp uuid4 in
      let sessions :=
        append user_id (system_turn ("UNIQUE_ID: " ++ unique_id)) sessions in
      append user_id (system_turn ("READABLE_ID: " ++ readable_id)) sessions
    else sessions in
  let welcome_message_json := dumps None welcome_data in
  let sessions := append user_id (assistant_turn welcome_message_json) sessions in
  ({| user_sessions := sessions;
      disk := save_conversations sessions (disk w) |},
   jsonify welcome_data).

(** [POST /chat].  The handler catches [JSONDecodeError] alone: a
    [RecursionError] or a [ValueError] of [json.loads], and the
    [RecursionError] of [jsonify] on a value nested deeper than the
    encoder goes, pass on to Flask, after the transcript has grown and has
    been saved.  No response is given where the reply decodes to text
    outside the model. *)
Definition chat (user_id user_message : string) (w : World)
  : World * option Response :=
  let sessions := user_sessions w in
  let sessions :=
    if negb (Dict.mem user_id sessions)
    then Dict.set user_id [system_turn SYSTEM_PROMPT] sessions
    else sessions in
  let sessions := append user_id (user_turn user_message) sessions in
  let response_message := chat_with_gpt (lookup user_id sessions) in
  let sessions := append user_id (assistant_turn response_message) sessions in
  ({| user_sessions := sessions;
      disk := save_conversations sessions (disk w) |},
   match loads limits response_message with
   | Decoded response_data =>
       if (nesting response_data <=? dumps_depth_limit limits)%nat
       then Some (jsonify response_data)
       else Some internal_server_error
   | JSONDecodeError =>
       Some (jsonify (JObj [("response", JStr response_message);
                            ("question_asked", JNull);
                            ("is_clarification", JBool false)]))
   | RecursionError | ValueError => Some internal_server_error
   | NotModelled => None
   end).

(** [POST /score_interview] *)
Definition score_interview_endpoint (user_id : string) (w : World) : Response :=
  if negb (Dict.mem user_id (user_sessions w)) then
    jsonify_with (JObj [("error", JStr "No interview found for this user")]) 400
  else
    let conversation := lookup user_id (user_sessions w) in
    let scoring_result := score_interview (conversation_text conversation) in
    jsonify (JObj [("scoring_result", JStr scoring_result)]).

(** [POST /get_unique_id] *)
Definition get_unique_id (user_id : string) (w : World) : Response :=
  if negb (Dict.mem user_id (user_sessions w)) then
    jsonify_with (JObj [("error", JStr "No interview found for this user")]) 400
  else
    let conversation := lookup user_id (user_sessions w) in
    let unique_id := find_readable_id conversation in
    match unique_id with
    | Some id =>
        if truthy id then jsonify (JObj [("unique_id", JStr id)])
        else jsonify_with (JObj [("error", JStr "Unique ID not found")]) 404
    | None => jsonify_with (JObj [("error", JStr "Unique ID not found")]) 404
    end.

(** [GET /export_mapping] *)
Definition export_mapping (w : World) : Response :=
  jsonify (JObj (export_table (user_sessions w))).

(** The routes that read or write the state, as one step function.
    [GET /] serves a fixed document and is left out. *)
Inductive Call : Type :=
| Health
| StartInterview (timestamp uuid4 user_id : string)
| Chat (user_id message : string)
| ScoreInterview (user_id : string)
| GetUniqueId (user_id : string)
| ExportMapping.

Definition handle (call : Call) (w : World) : World * option Response :=
  match call with
  | Health => (w, Some health)
  | StartInterview timestamp uuid4 user_id =>
      let (w', r) := start_interview timestamp uuid4 user_id w in (w', Some r)
  | Chat user_id message => chat user_id message w
  | ScoreInterview user_id => (w, Some (score_interview_endpoint user_id w))
  | GetUniqueId user_id => (w, Some (get_unique_id user_id w))
  | ExportMapping => (w, Some (export_mapping w))
  end.

End Handlers.

End App.

(** ** Vocabulary of the specification *)

Module Spec.
Import Py Json App.

(** An identifier turn: a system turn whose content starts with a marker. *)
Definition marked (marker : string) (m : Turn) : bool :=
  (role m =? "system") && startswith (content m) marker.

Definition is_unique_id_turn : Turn -> bool := marked "UNIQUE_ID:".
Definition is_readable_id_turn : Turn -> bool := marked "READABLE_ID:".

(** How many turns of each identifier kind a transcript holds. *)
Definition identifier_counts (conversation : Conversation) : nat * nat :=
  (List.length (filter is_unique_id_turn conversation),
   List.length (filter is_readable_id_turn conversation)).

Definition system_count (conversation : Conversation) : nat :=
  List.length (filter (fun m => role m =? "system") conversation).

(** The identifier a turn carries: its content without the marker text,
    stripped. *)
Definition carried (marker : string) (m : Turn) : string :=
  strip (replace (content m) marker "").

(** The identifier of the last turn with the given marker. *)
Fixpoint last_identifier (marker : string) (conversation : Conversation)
  : option string :=
  match conversation with
  | [] => None
  | m :: rest =>
      match last_identifier marker rest with
      | Some id => Some id
      | None => if marked marker m then Some (carried marker m) else None
      end
  end.

(** The row a session contributes to the exported mapping, if any. *)
Definition exported (user_id : string) (conversation : Conversation)
  : option (string * json) :=
  match last_identifier "UNIQUE_ID:" conversation,
        last_identifier "READABLE_ID:" conversation with
  | Some unique_id, Some readable_id =>
      if truthy unique_id && truthy readable_id then
        Some (readable_id,
              JObj [("unique_id", JStr unique_id);
                    ("user_id", JStr user_id);
                    ("message_count",
                     JInt (Z.of_nat (List.length
                       (filter (fun m => negb (role m =? "system")) conversation))))])
      else None
  | _, _ => None
  end.

(** The fallback reply of the conversation path. *)
Definition fallback_reply (raw : string) : json :=
  JObj [("response", JStr raw);
        ("question_asked", JNull);
        ("is_clarification", JBool false)].

(** What [/chat] answers once [chat_with_gpt] has returned [raw]. *)
Definition chat_response (limits : Limits) (raw : string) : option Response :=
  match loads limits raw with
  | Decoded response_data =>
      if (nesting response_data <=? dumps_depth_limit limits)%nat
      then Some (jsonify response_data)
      else Some internal_server_error
  | JSONDecodeError => Some (jsonify (fallback_reply raw))
  | RecursionError | ValueError => Some internal_server_error
  | NotModelled => None
  end.

(** The session a request for [user_id] works on: the stored one, or the
    one that the conversation path seeds. *)
Definition resolved (user_id : string) (sessions : Sessions) : Conversation :=
  match Dict.get user_id sessions with
  | Some conversation => conversation
  | None => [system_turn SYSTEM_PROMPT]
  end.

Definition error_body (message : string) : json :=
  JObj [("error", JStr message)].

(** The turn that [/start_interview] appends on every call. *)
Definition welcome_turn : Turn := assistant_turn (dumps None welcome_data).

(** The three system turns of a session that [/start_interview] creates. *)
Definition seeded (timestamp uuid4 : string) : Conversation :=
  [ system_turn SYSTEM_PROMPT;
    system_turn ("UNIQUE_ID: " ++ snd (Identifier.generate_unique_id timestamp uuid4));
    system_turn ("READABLE_ID: " ++ fst (Identifier.generate_unique_id timestamp uuid4)) ].

(** The completion text of the first test of the conversation path. *)
Definition structured_stub : string :=
  "{" ++ dq ++ "response" ++ dq ++ ":" ++ dq ++ "Hi" ++ dq ++ ","
  ++ dq ++ "question_asked" ++ dq ++ ":0,"
  ++ dq ++ "is_clarification" ++ dq ++ ":false}".



(** The limits of a stock interpreter: integers of 4300 digits, and
    room for some 990 containers below a handler. *)
Definition stock_limits : Limits :=
  {| spare_depth := 990; spare_digits := Some 3660; spare_dumps_depth := 987 |}.

Definition empty_world : World :=
  {| user_sessions := [];
     disk := {| conversations_file := None; readable := true;
                writable := true; torn_write := None |} |}.

(** The request that [chat_with_gpt] sends for a transcript. *)
Definition chat_request (conversation : Conversation) : Completion :=
  {| model := "gpt-4o";
     messages := conversation;
     max_tokens := 500;
     temperature := None |}.

(** The text of one turn and of one transcript inside the saved file, at
    the depth where [save_conversations] writes them. *)
Definition turn_dump (t : Turn) : string :=
  dumps_at (Some 2) 2 (turn_to_json t).

Definition conversation_dump (kc : string * Conversation) : string :=
  dumps_at (Some 2) 1 (JArr (map turn_to_json (snd kc))).

End Spec.

(** ** Start-up configuration *)

Module Config.
Import Py App.

(** [c.lower()] on code points below 256: the capital letters of the
    basic and of the Latin-1 alphabet move up by 32. *)
Definition lower_char (c : ascii) : ascii :=
  let n := nat_of_ascii c in
  if ((65 <=? n) && (n <=? 90)
      || (192 <=? n) && (n <=? 222) && negb (n =? 215))%nat
  then ascii_of_nat (n + 32) else c.

Fixpoint lower (s : string) : string :=
  match s with
  | EmptyString => EmptyString
  | String c s' => String (lower_char c) (lower s')
  end.

(** The dictionary that [load_config] returns. *)
Record Settings : Type :=
  { openai_api_key : option string;
    port : Z;
    host : string;
    debug : bool }.

(** How [load_config] ends: with the settings, with [exit(status)], or with
    the [ValueError] of [int] on the text of [PORT]. *)
Inductive Outcome : Type :=
| Loaded (config : Settings)
| Exited (status : nat)
| ValueError.

Section Loading.

(** The built-in [int] on text: [None] where it raises [ValueError]. *)
Variable int : string -> option Z.

(** [load_config()]; [environ] is [os.environ]. *)
Definition load_config (environ : Dict.dict string) : Outcome :=
  match (match Dict.get "PORT" environ with
         | Some text => int text
         | None => Some 5003%Z
         end) with
  | None => ValueError
  | Some number =>
      let config :=
        {| openai_api_key := Dict.get "OPENAI_API_KEY" environ;
           port := number;
           host := match Dict.get "HOST" environ with
                   | Some h => h
                   | None => "0.0.0.0"
                   end;
           debug := lower (match Dict.get "DEBUG" environ with
                           | Some d => d
                           | None => "False"
                           end) =? "true" |} in
      if negb (is_truthy (openai_api_key config)) then
        if is_truthy (Dict.get "PORT" environ) then Loaded config
        else Exited 1
      else Loaded config
  end.

End Loading.

End Config.

(** ** Sequences of requests *)

Module Trace.
Import Json App.

Section Run.
Variable limits : Limits.
Variable OPENAI_API_KEY : option string.
Variable create : Completion -> string + string.

(** The state after one call. *)
Definition step (w : World) (call : Call) : World :=
  fst (handle limits OPENAI_API_KEY create call w).

(** The state after the calls, served one after the other. *)
Definition run (calls : list Call) (w : World) : World :=
  fold_left step calls w.

End Run.

End Trace.

(** ** Vocabulary of the further properties *)

Module Shape.
Import Py Json App Spec.

Definition non_system (m : Turn) : bool := negb (role m =? "system").

Fixpoint all_chars (p : ascii -> bool) (s : string) : bool :=
  match s with
  | EmptyString => true
  | String c s' => p c && all_chars p s'
  end.

(** The characters of [str(uuid.uuid4())]: digits, the letters [a] to [f]
    and the dash. *)
Definition token_char (c : ascii) : bool :=
  let n := nat_of_ascii c in
  (is_digit c || (97 <=? n) && (n <=? 102) || (n =? 45))%nat.

(** A transcript as the two writing routes build it: the instructions
    turn, or the three turns of [/start_interview], and behind them no
    system turn. *)
Definition well_seeded (conversation : Conversation) : Prop :=
  exists tail,
    forallb non_system tail = true
    /\ (conversation = system_turn SYSTEM_PROMPT :: tail
        \/ exists timestamp uuid4,
             conversation = (seeded timestamp uuid4 ++ tail)%list).

(** A restart would find the store that is in memory; [boot] is what
    the interpreter allows at import time. *)
Definition recoverable (boot : Limits) (w : World) : Prop :=
  exists w',
    startup boot (disk w) = Some w' /\ user_sessions w' = user_sessions w.

(** The same state with another file system under it. *)
Definition on_disk (fs : FileSystem) (w : World) : World :=
  {| user_sessions := user_sessions w; disk := fs |}.

End Shape.

(** * Properties *)

(** ** Strings *)

Section StringFacts.

Lemma append_nil_r (s : string) : s ++ "" = s.
Proof. induction s as [|c s IH]; simpl; congruence. Qed.

Lemma append_assoc (a b c : string) : (a ++ b) ++ c = a ++ b ++ c.
Proof. induction a as [|x a IH]; simpl; congruence. Qed.

Lemma length_append (a b : string) :
  String.length (a ++ b) = String.length a + String.length b.
Proof. induction a as [|x a IH]; simpl; congruence. Qed.

Lemma prefix_nil (s : string) : String.prefix "" s = true.
Proof. now destruct s. Qed.

Lemma prefix_append (p s : string) : String.prefix p (p ++ s) = true.
Proof.
  induction p as [|c p IH]; simpl.
  - apply prefix_nil.
  - destruct (ascii_dec c c) as [_|ne]; [exact IH | now elim ne].
Qed.

Lemma nat_of_ascii_eqb (c : ascii) (n : nat) :
  n < 256 -> (nat_of_ascii c =? n)%nat = true -> c = ascii_of_nat n.
Proof.
  intros _ H. apply Nat.eqb_eq in H. rewrite <- H.
  symmetry. apply ascii_nat_embedding.
Qed.

Lemma substring_0_length (n : nat) (s : string) :
  String.length (substring 0 n s) = Nat.min n (String.length s).
Proof.
  revert s; induction n as [|n IH]; intros [|c s]; simpl; auto.
Qed.

Lemma substring_0_prefix (n : nat) (s : string) :
  exists rest, s = substring 0 n s ++ rest.
Proof.
  revert s; induction n as [|n IH]; intros [|c s]; simpl.
  - now exists "".
  - now exists (String c s).
  - now exists "".
  - destruct (IH s) as [r Hr]. exists r. congruence.
Qed.

Lemma substring_0_all (n : nat) (s : string) :
  String.length s <= n -> substring 0 n s = s.
Proof.
  revert s; induction n as [|n IH]; intros [|c s] H; simpl in *;
    try reflexivity; try lia.
  f_equal. apply IH. lia.
Qed.

Lemma substring_suffix (m n : nat) (s : string) :
  String.length s <= m + n ->
  exists front,
    s = front ++ substring m n s
    /\ String.length front = Nat.min m (String.length s).
Proof.
  revert s; induction m as [|m IH]; intros s Hlen.
  - exists "". simpl. rewrite substring_0_all by lia. now split.
  - destruct s as [|c s]; simpl in *.
    + exists "". now split.
    + destruct (IH s) as [f [Hf Hl]]; [lia|].
      exists (String c f). simpl. split; congruence.
Qed.

End StringFacts.

(** ** Dictionaries *)

Section DictFacts.
Context {V : Type}.
Implicit Types (d : Dict.dict V) (k : string) (v : V).

Lemma get_set_same k v d : Dict.get k (Dict.set k v d) = Some v.
Proof.
  induction d as [|[k' v'] d IH]; simpl.
  - now rewrite String.eqb_refl.
  - destruct (k' =? k) eqn:E; simpl.
    + now rewrite String.eqb_refl.
    + now rewrite E.
Qed.

Lemma get_set_other k k' v d :
  k <> k' -> Dict.get k' (Dict.set k v d) = Dict.get k' d.
Proof.
  intros Hne. induction d as [|[k0 v0] d IH]; simpl.
  - apply String.eqb_neq in Hne. now rewrite Hne.
  - destruct (k0 =? k) eqn:E; simpl.
    + apply String.eqb_eq in E. subst k0.
      apply String.eqb_neq in Hne. now rewrite Hne.
    + now rewrite IH.
Qed.

Lemma mem_false_get k d : Dict.mem k d = false -> Dict.get k d = None.
Proof. unfold Dict.mem. now destruct (Dict.get k d). Qed.

Lemma mem_true_get k d :
  Dict.mem k d = true -> exists v, Dict.get k d = Some v.
Proof. unfold Dict.mem. destruct (Dict.get k d) as [v|]; [now exists v | discriminate]. Qed.

Lemma get_some_mem k d v : Dict.get k d = Some v -> Dict.mem k d = true.
Proof. unfold Dict.mem. now intros ->. Qed.

Lemma get_none_mem k d : Dict.get k d = None -> Dict.mem k d = false.
Proof. unfold Dict.mem. now intros ->. Qed.

End DictFacts.

(** ** Identifiers *)

Section IdentifierFacts.
Import Py Identifier.

Lemma components_join (t r : string) :
  contains t "-" = false -> components (t ++ "-" ++ r) = (t, r).
Proof.
  induction t as [|c t IH]; intros H.
  - reflexivity.
  - simpl in H. apply orb_false_elim in H. destruct H as [Hc Ht].
    specialize (IH Ht). simpl in IH |- *.
    destruct (nat_of_ascii c =? 45)%nat eqn:E.
    + apply nat_of_ascii_eqb in E; [|lia]. subst c.
      simpl in Hc. now rewrite prefix_nil in Hc.
    + now rewrite IH.
Qed.

(** C9.  For a timestamp of six characters or more that holds no separator
    and a random token of eight characters or more, [generate_unique_id]
    returns an internal identifier that is the timestamp, the separator and
    the first eight characters of the token, and a readable identifier that
    is the last six characters of the timestamp, the separator and the first
    six characters of that slice.  The readable identifier is no longer than
    the internal one, and it is a function of the internal identifier's two
    components, which can be read back from the internal identifier. *)
Theorem generate_unique_id_shape (timestamp uuid4 : string) :
  6 <= String.length timestamp ->
  8 <= String.length uuid4 ->
  contains timestamp "-" = false ->
  let (readable_id, unique_id) := generate_unique_id timestamp uuid4 in
  exists random_part unused earlier last6 first6 later,
    uuid4 = random_part ++ unused /\ String.length random_part = 8
    /\ unique_id = timestamp ++ "-" ++ random_part
    /\ timestamp = earlier ++ last6 /\ String.length last6 = 6
    /\ random_part = first6 ++ later /\ String.length first6 = 6
    /\ readable_id = last6 ++ "-" ++ first6
    /\ String.length readable_id <= String.length unique_id
    /\ readable_id = readable_of_components timestamp random_part
    /\ components unique_id = (timestamp, random_part)
    /\ readable_of_internal unique_id = readable_id.
Proof.
  intros Ht Hu Hdash. unfold generate_unique_id, slice_to, slice_last.
  set (random_part := substring 0 8 uuid4).
  set (last6 := substring (String.length timestamp - 6) 6 timestamp).
  set (first6 := substring 0 6 random_part).
  assert (Hr : String.length random_part = 8).
  { unfold random_part. rewrite substring_0_length. lia. }
  destruct (substring_0_prefix 8 uuid4) as [unused Hunused].
  destruct (substring_suffix (String.length timestamp - 6) 6 timestamp)
    as [earlier [Hearlier Hlen]]; [lia|].
  destruct (substring_0_prefix 6 random_part) as [later Hlater].
  assert (Hf : String.length first6 = 6).
  { unfold first6. rewrite substring_0_length. lia. }
  assert (Hl : String.length last6 = 6).
  { apply (f_equal String.length) in Hearlier.
    rewrite length_append in Hearlier. fold last6 in Hearlier. lia. }
  exists random_part, unused, earlier, last6, first6, later.
  repeat split; auto.
  - rewrite !length_append, Hl, Hf, Hr. simpl. lia.
  - now apply components_join.
  - unfold readable_of_internal. now rewrite components_join.
Qed.

Lemma generate_unique_id_shape_witness :
  let (readable_id, unique_id) :=
    generate_unique_id "20240102030405" "0123abcd-ffff-4fff-8fff-ffffffffffff" in
  exists random_part unused earlier last6 first6 later,
    "0123abcd-ffff-4fff-8fff-ffffffffffff" = random_part ++ unused
    /\ String.length random_part = 8
    /\ unique_id = "20240102030405" ++ "-" ++ random_part
    /\ "20240102030405" = earlier ++ last6 /\ String.length last6 = 6
    /\ random_part = first6 ++ later /\ String.length first6 = 6
    /\ readable_id = last6 ++ "-" ++ first6
    /\ String.length readable_id <= String.length unique_id
    /\ readable_id = readable_of_components "20240102030405" random_part
    /\ components unique_id = ("20240102030405", random_part)
    /\ readable_of_internal unique_id = readable_id.
Proof.
  apply (generate_unique_id_shape "20240102030405"
           "0123abcd-ffff-4fff-8fff-ffffffffffff").
  - simpl; lia.
  - simpl; lia.
  - reflexivity.
Defined.

End IdentifierFacts.

(** ** Handlers that only read the state *)

Section Readers.
Import Py Json App Spec.

Lemma replace_from_skip (p old new rest : string) :
  replace_from (String.length p) old new (p ++ rest)
  = replace_from 0 old new rest.
Proof.
  induction p as [|c p IH]; simpl.
  - now destruct rest.
  - exact IH.
Qed.

Lemma replace_prefix (c : ascii) (old' new rest : string) :
  replace (String c old' ++ rest) (String c old') new
  = new ++ replace rest (String c old') new.
Proof.
  unfold replace.
  change (String c old' ++ rest) with (String c (old' ++ rest)).
  cbn [replace_from].
  change (String c (old' ++ rest)) with (String c old' ++ rest).
  rewrite prefix_append. f_equal.
  replace (String.length (String c old') - 1) with (String.length old')
    by (cbn [String.length]; lia).
  apply replace_from_skip.
Qed.

Lemma replace_absent (s old new : string) :
  contains s old = false -> replace s old new = s.
Proof.
  unfold replace. induction s as [|c s IH]; intros H.
  - reflexivity.
  - cbn [contains] in H. apply orb_false_elim in H. destruct H as [Hp Hs].
    cbn [replace_from]. rewrite Hp. f_equal. now apply IH.
Qed.

Lemma find_readable_id_first (conversation : Conversation) :
  find_readable_id conversation
  = option_map (carried "READABLE_ID:") (find is_readable_id_turn conversation).
Proof.
  induction conversation as [|m rest IH]; [reflexivity|].
  cbn [find_readable_id find].
  unfold is_readable_id_turn at 1, marked.
  destruct ((role m =? "system") && startswith (content m) "READABLE_ID:");
    [reflexivity | exact IH].
Qed.

(** C4, as the code has it.  A [user_id] without a session gets status 400
    from [/get_unique_id], with an [error] field in the body. *)
Theorem get_unique_id_unknown (user_id : string) (w : World) :
  Dict.mem user_id (user_sessions w) = false ->
  get_unique_id user_id w
  = jsonify_with (error_body "No interview found for this user") 400.
Proof. intros H. unfold get_unique_id. now rewrite H. Qed.

Lemma get_unique_id_unknown_witness :
  get_unique_id "nobody"
    {| user_sessions := [];
       disk := {| conversations_file := None; readable := true; writable := true; torn_write := None |} |}
  = jsonify_with (error_body "No interview found for this user") 400.
Proof. apply get_unique_id_unknown. reflexivity. Defined.

(** C4 as stated fails: on the empty store the status is 400, not 404. *)
Lemma get_unique_id_unknown_is_not_404 :
  let w := {| user_sessions := [];
              disk := {| conversations_file := None;
                         readable := true; writable := true; torn_write := None |} |} in
  Dict.mem "nobody" (user_sessions w) = false
  /\ status (get_unique_id "nobody" w) = 400
  /\ status (get_unique_id "nobody" w) <> 404.
Proof. repeat split. discriminate. Qed.

(** C10, as the code has it.  For a session that exists, the first system
    turn that starts with [READABLE_ID:] decides the answer.  Without such
    a turn the answer is 404 with an [error] body.  With one, the answer is
    its content without every occurrence of the marker, stripped: status
    200 and field [unique_id] when that text is not empty, 404 with an
    [error] body when it is.  Where the marker does not occur again behind
    the leading one, that text is the content after the marker, stripped. *)
Theorem get_unique_id_known (user_id : string) (w : World)
  (conversation : Conversation) :
  Dict.get user_id (user_sessions w) = Some conversation ->
  match find is_readable_id_turn conversation with
  | None =>
      get_unique_id user_id w = jsonify_with (error_body "Unique ID not found") 404
  | Some m =>
      let id := strip (replace (content m) "READABLE_ID:" "") in
      get_unique_id user_id w
      = (if truthy id then jsonify (JObj [("unique_id", JStr id)])
         else jsonify_with (error_body "Unique ID not found") 404)
      /\ forall rest,
           content m = "READABLE_ID:" ++ rest ->
           contains rest "READABLE_ID:" = false ->
           id = strip rest
  end.
Proof.
  intros H. unfold get_unique_id.
  rewrite (get_some_mem _ _ _ H). cbn [negb].
  unfold lookup. rewrite H, find_readable_id_first.
  destruct (find is_readable_id_turn conversation) as [m|]; cbn [option_map].
  - split; [reflexivity|].
    intros rest Hc Hr. cbn zeta. rewrite Hc.
    rewrite replace_prefix. cbn [append]. now rewrite replace_absent.
  - reflexivity.
Qed.

Lemma get_unique_id_known_witness :
  let w := {| user_sessions :=
                [("u", [system_turn "intro";
                        system_turn "READABLE_ID: 030405-0123ab"])];
              disk := {| conversations_file := None;
                         readable := true; writable := true; torn_write := None |} |} in
  get_unique_id "u" w = jsonify (JObj [("unique_id", JStr "030405-0123ab")])
  /\ forall rest,
       "READABLE_ID: 030405-0123ab" = "READABLE_ID:" ++ rest ->
       contains rest "READABLE_ID:" = false ->
       "030405-0123ab" = strip rest.
Proof.
  exact (get_unique_id_known "u"
           {| user_sessions :=
                [("u", [system_turn "intro";
                        system_turn "READABLE_ID: 030405-0123ab"])];
              disk := {| conversations_file := None;
                         readable := true; writable := true; torn_write := None |} |}
           _ eq_refl).
Defined.

(** C10 as stated fails where nothing but white space follows the marker:
    the turn is present and the answer is 404. *)
Lemma get_unique_id_blank_identifier :
  let conversation := [system_turn "READABLE_ID:  "] in
  let w := {| user_sessions := [("u", conversation)];
              disk := {| conversations_file := None;
                         readable := true; writable := true; torn_write := None |} |} in
  existsb is_readable_id_turn conversation = true
  /\ get_unique_id "u" w = jsonify_with (error_body "Unique ID not found") 404
  /\ status (get_unique_id "u" w) <> 200.
Proof. repeat split. discriminate. Qed.

(** The transcript, as a filter and a map over the turns. *)
Lemma conversation_text_fold (conversation : Conversation) (acc : string) :
  fold_left render_turn conversation acc
  = acc ++ String.concat ""
      (map (fun m =>
              (if role m =? "assistant" then "Interviewer" else "Candidate")
              ++ ": " ++ content m ++ nl ++ nl)
         (filter (fun m => negb (role m =? "system")) conversation)).
Proof.
  revert acc. induction conversation as [|m rest IH]; intros acc.
  - cbn. now rewrite append_nil_r.
  - cbn [fold_left filter]. rewrite IH. unfold render_turn.
    destruct (negb (role m =? "system")); [|reflexivity].
    cbn [map]. rewrite append_assoc. f_equal.
    destruct (filter _ rest) as [|m' ms].
    + cbn. now rewrite append_nil_r.
    + cbn [map String.concat]. reflexivity.
Qed.

Lemma conversation_text_cons (m : Turn) (rest : Conversation) :
  conversation_text (m :: rest)
  = render_turn "" m ++ conversation_text rest.
Proof.
  unfold conversation_text. cbn [fold_left].
  rewrite !conversation_text_fold. reflexivity.
Qed.

End Readers.

Section Scoring.
Import Py Json App Spec.
Variable limits : Limits.
Variable OPENAI_API_KEY : option string.
Variable create : Completion -> string + string.

(** C8.  The text that [/score_interview] submits for scoring is built from
    the session's turns in order: a system turn adds nothing, an assistant
    turn adds its content labelled [Interviewer], a user turn adds its
    content labelled [Candidate], and each added turn ends with a blank
    line. *)
Theorem score_interview_transcript (user_id : string) (w : World)
  (conversation : Conversation) :
  Dict.get user_id (user_sessions w) = Some conversation ->
  score_interview_endpoint OPENAI_API_KEY create user_id w
  = jsonify (JObj [("scoring_result",
                    JStr (score_interview OPENAI_API_KEY create
                            (conversation_text conversation)))])
  /\ conversation_text [] = ""
  /\ (forall m rest, role m = "system" ->
        conversation_text (m :: rest) = conversation_text rest)
  /\ (forall m rest, role m = "assistant" ->
        conversation_text (m :: rest)
        = "Interviewer: " ++ content m ++ nl ++ nl ++ conversation_text rest)
  /\ (forall m rest, role m = "user" ->
        conversation_text (m :: rest)
        = "Candidate: " ++ content m ++ nl ++ nl ++ conversation_text rest).
Proof.
  intros H. split; [|split; [reflexivity|repeat split]].
  - unfold score_interview_endpoint.
    rewrite (get_some_mem _ _ _ H). cbn [negb]. unfold lookup. now rewrite H.
  - intros m rest Hr. rewrite conversation_text_cons.
    unfold render_turn. now rewrite Hr.
  - intros m rest Hr. rewrite conversation_text_cons.
    unfold render_turn. rewrite Hr. cbn. now rewrite !append_assoc.
  - intros m rest Hr. rewrite conversation_text_cons.
    unfold render_turn. rewrite Hr. cbn. now rewrite !append_assoc.
Qed.

End Scoring.

Lemma score_interview_transcript_witness :
  let conversation :=
    [App.system_turn "intro"; App.assistant_turn "Q"; App.user_turn "A"] in
  let w := {| App.user_sessions := [("u", conversation)];
              App.disk := {| App.conversations_file := None;
                             App.readable := true; App.writable := true;
                             App.torn_write := None |} |} in
  App.score_interview_endpoint None (fun _ => inl "5") "u" w
  = App.jsonify (Json.JObj [("scoring_result",
       Json.JStr (App.score_interview None (fun _ => inl "5")
                    (App.conversation_text conversation)))])
  /\ App.conversation_text conversation
     = "Interviewer: Q" ++ Py.nl ++ Py.nl ++ "Candidate: A" ++ Py.nl ++ Py.nl.
Proof.
  split.
  - exact (proj1 (score_interview_transcript None (fun _ => inl "5") "u"
             {| App.user_sessions :=
                  [("u", [App.system_turn "intro"; App.assistant_turn "Q";
                          App.user_turn "A"])];
                App.disk := {| App.conversations_file := None;
                               App.readable := true; App.writable := true;
                             App.torn_write := None |} |}
             _ eq_refl)).
  - reflexivity.
Defined.

(** ** Handlers that write the state *)

Section Writers.
Import Py Json Identifier App Spec.
Variable limits : Limits.
Variable OPENAI_API_KEY : option string.
Variable create : Completion -> string + string.

Lemma append_get_same (k : string) (t : Turn) (s : Sessions)
  (conversation : Conversation) :
  Dict.get k s = Some conversation ->
  Dict.get k (append k t s) = Some (conversation ++ [t])%list.
Proof. intros H. unfold append. rewrite H. apply get_set_same. Qed.

Lemma append_get_other (k k' : string) (t : Turn) (s : Sessions) :
  k <> k' -> Dict.get k' (append k t s) = Dict.get k' s.
Proof.
  intros H. unfold append.
  destruct (Dict.get k s); [now apply get_set_other | reflexivity].
Qed.

(** The session of the key after [/start_interview]. *)
Lemma start_interview_session (timestamp uuid4 k : string) (w : World) :
  Dict.get k (user_sessions (fst (start_interview timestamp uuid4 k w)))
  = Some ((match Dict.get k (user_sessions w) with
           | Some conversation => conversation
           | None => seeded timestamp uuid4
           end) ++ [welcome_turn])%list.
Proof.
  unfold start_interview. cbn [fst user_sessions].
  destruct (Dict.get k (user_sessions w)) as [conversation|] eqn:E.
  - rewrite (get_some_mem _ _ _ E). cbn [negb].
    now apply append_get_same.
  - rewrite (get_none_mem _ _ E). cbn [negb].
    unfold generate_unique_id. apply append_get_same.
    change (seeded timestamp uuid4) with
      (([system_turn SYSTEM_PROMPT]
        ++ [system_turn ("UNIQUE_ID: " ++ snd (generate_unique_id timestamp uuid4))])
        ++ [system_turn ("READABLE_ID: " ++ fst (generate_unique_id timestamp uuid4))])%list.
    apply append_get_same. apply append_get_same. apply get_set_same.
Qed.

Lemma start_interview_others (timestamp uuid4 k k' : string) (w : World) :
  k <> k' ->
  Dict.get k' (user_sessions (fst (start_interview timestamp uuid4 k w)))
  = Dict.get k' (user_sessions w).
Proof.
  intros H. unfold start_interview. cbn [fst user_sessions].
  rewrite append_get_other by assumption.
  destruct (negb (Dict.mem k (user_sessions w))); [|reflexivity].
  unfold generate_unique_id.
  rewrite !append_get_other by assumption. now apply get_set_other.
Qed.

(** The session of the key after [/chat]. *)
Lemma chat_session (k message : string) (w : World) :
  let before := resolved k (user_sessions w) in
  let reply :=
    chat_with_gpt OPENAI_API_KEY create (before ++ [user_turn message])%list in
  Dict.get k (user_sessions (fst (chat limits OPENAI_API_KEY create k message w)))
  = Some (before ++ [user_turn message; assistant_turn reply])%list
  /\ snd (chat limits OPENAI_API_KEY create k message w)
     = chat_response limits reply.
Proof.
  intros before reply. unfold chat. cbn [fst snd user_sessions].
  set (s1 := if negb (Dict.mem k (user_sessions w))
             then Dict.set k [system_turn SYSTEM_PROMPT] (user_sessions w)
             else user_sessions w).
  assert (H1 : Dict.get k s1 = Some before).
  { unfold s1, before, resolved.
    destruct (Dict.get k (user_sessions w)) as [c|] eqn:E.
    - now rewrite (get_some_mem _ _ _ E).
    - rewrite (get_none_mem _ _ E). apply get_set_same. }
  assert (H2 : Dict.get k (append k (user_turn message) s1)
               = Some (before ++ [user_turn message])%list)
    by now apply append_get_same.
  unfold lookup. rewrite H2. fold reply. split; [|reflexivity].
  rewrite (append_get_same _ _ _ _ H2). now rewrite <- app_assoc.
Qed.

Lemma chat_others (k k' message : string) (w : World) :
  k <> k' ->
  Dict.get k' (user_sessions (fst (chat limits OPENAI_API_KEY create k message w)))
  = Dict.get k' (user_sessions w).
Proof.
  intros H. unfold chat. cbn [fst user_sessions].
  rewrite !append_get_other by assumption.
  destruct (negb (Dict.mem k (user_sessions w))); [|reflexivity].
  now apply get_set_other.
Qed.

Lemma identifier_counts_app (c : Conversation) (t : Turn) :
  role t <> "system" ->
  identifier_counts (c ++ [t])%list = identifier_counts c
  /\ system_count (c ++ [t])%list = system_count c.
Proof.
  intros H. apply String.eqb_neq in H.
  unfold identifier_counts, system_count, is_unique_id_turn,
    is_readable_id_turn, marked.
  rewrite !filter_app. cbn [filter]. rewrite H. cbn [andb].
  now rewrite !app_nil_r.
Qed.

(** C1, as the code has it.  A second [/start_interview] for the same key
    seeds nothing again: it keeps every turn of the session, adds no
    system turn and no identifier turn, and appends the welcome turn, so
    the turn count is one more than after the first call. *)
Theorem start_interview_twice (ts1 uuid1 ts2 uuid2 k : string) (w : World) :
  let w1 := fst (start_interview ts1 uuid1 k w) in
  let w2 := fst (start_interview ts2 uuid2 k w1) in
  exists conversation,
    Dict.get k (user_sessions w1) = Some conversation
    /\ Dict.get k (user_sessions w2) = Some (conversation ++ [welcome_turn])%list
    /\ List.length (conversation ++ [welcome_turn])%list
       = S (List.length conversation)
    /\ system_count (conversation ++ [welcome_turn])%list = system_count conversation
    /\ identifier_counts (conversation ++ [welcome_turn])%list
       = identifier_counts conversation.
Proof.
  intros w1 w2.
  pose proof (start_interview_session ts1 uuid1 k w) as H1. fold w1 in H1.
  pose proof (start_interview_session ts2 uuid2 k w1) as H2. fold w2 in H2.
  rewrite H1 in H2.
  eexists. split; [exact H1|]. split; [exact H2|].
  split; [rewrite length_app; cbn; lia|].
  assert (Hw : role welcome_turn <> "system") by discriminate.
  destruct (identifier_counts_app
              ((match Dict.get k (user_sessions w) with
                | Some c => c
                | None => seeded ts1 uuid1
                end) ++ [welcome_turn])%list welcome_turn Hw) as [Hi Hs].
  now split.
Qed.

(** The structured text of the test decodes and encodes within every
    interpreter's limits. *)
Lemma structured_stub_response (l : Limits) :
  chat_response l structured_stub
  = Some {| status := 200;
            body := JObj [("response", JStr "Hi");
                          ("question_asked", JInt 0);
                          ("is_clarification", JBool false)] |}.
Proof. destruct l as [d [g|] e]; reflexivity. Qed.

(** C2.  When the credential is configured and the completion API answers
    with the structured text of the test, [/chat] returns exactly that
    structure with status 200, and the session holds the turns it had (or
    the seeded instructions turn, for a new key) followed by the user turn
    and the assistant turn that carries the returned text. *)
Theorem chat_structured_reply (k message : string) (w : World) :
  is_truthy OPENAI_API_KEY = true ->
  create (chat_request (resolved k (user_sessions w) ++ [user_turn message])%list)
  = inl structured_stub ->
  let before := resolved k (user_sessions w) in
  let after := chat limits OPENAI_API_KEY create k message w in
  snd after
  = Some {| status := 200;
            body := JObj [("response", JStr "Hi");
                          ("question_asked", JInt 0);
                          ("is_clarification", JBool false)] |}
  /\ Dict.get k (user_sessions (fst after))
     = Some (before ++ [user_turn message; assistant_turn structured_stub])%list
  /\ List.length (before ++ [user_turn message; assistant_turn structured_stub])%list
     = 2 + List.length before.
Proof.
  intros Hkey Hcreate before after.
  destruct (chat_session k message w) as [Hs Hr].
  assert (Hreply : chat_with_gpt OPENAI_API_KEY create
                     (before ++ [user_turn message])%list = structured_stub).
  { unfold chat_with_gpt. rewrite Hkey. cbn [negb].
    unfold chat_request in Hcreate. unfold before. now rewrite Hcreate. }
  fold before in Hs, Hr. rewrite Hreply in Hs, Hr.
  split; [|split].
  - unfold after. rewrite Hr. apply structured_stub_response.
  - exact Hs.
  - rewrite length_app. cbn. lia.
Qed.


End Writers.

(** ** Concrete runs of the writing handlers *)

Section Runs.
Import Py Json Identifier App Spec.

Lemma chat_structured_reply_witness :
  let after :=
    chat stock_limits (Some "sk-test") (fun _ => inl structured_stub) "u" "Hello" empty_world in
  snd after
  = Some {| status := 200;
            body := JObj [("response", JStr "Hi");
                          ("question_asked", JInt 0);
                          ("is_clarification", JBool false)] |}
  /\ Dict.get "u" (user_sessions (fst after))
     = Some ([system_turn SYSTEM_PROMPT]
             ++ [user_turn "Hello"; assistant_turn structured_stub])%list
  /\ List.length ([system_turn SYSTEM_PROMPT]
                  ++ [user_turn "Hello"; assistant_turn structured_stub])
     = 2 + List.length [system_turn SYSTEM_PROMPT].
Proof.
  exact (chat_structured_reply stock_limits (Some "sk-test") (fun _ => inl structured_stub)
           "u" "Hello" empty_world eq_refl eq_refl).
Defined.


(** C1 as stated fails: on the empty store the first call leaves four
    turns and the second call five. *)
Lemma start_interview_twice_grows :
  let w1 := fst (start_interview "20240102030405"
                   "0123abcd-ffff-4fff-8fff-ffffffffffff" "u" empty_world) in
  let w2 := fst (start_interview "20240102030406"
                   "9876fedc-ffff-4fff-8fff-ffffffffffff" "u" w1) in
  List.length (lookup "u" (user_sessions w1)) = 4
  /\ List.length (lookup "u" (user_sessions w2)) = 5
  /\ List.length (lookup "u" (user_sessions w2))
     <> List.length (lookup "u" (user_sessions w1)).
Proof. vm_compute. repeat split. discriminate. Qed.


End Runs.

(** ** Identifier turns across the routes *)

Section IdentifierTurns.
Import Py Json Identifier App Spec.
Variable limits : Limits.
Variable OPENAI_API_KEY : option string.
Variable create : Completion -> string + string.

Lemma seeded_counts (timestamp uuid4 : string) :
  identifier_counts (seeded timestamp uuid4 ++ [welcome_turn])%list = (1, 1).
Proof. reflexivity. Qed.

Lemma identifier_counts_app2 (c : Conversation) (t1 t2 : Turn) :
  role t1 <> "system" -> role t2 <> "system" ->
  identifier_counts (c ++ [t1; t2])%list = identifier_counts c.
Proof.
  intros H1 H2.
  change (c ++ [t1; t2])%list with (c ++ [t1] ++ [t2])%list.
  rewrite app_assoc.
  rewrite (proj1 (identifier_counts_app _ _ H2)).
  exact (proj1 (identifier_counts_app _ _ H1)).
Qed.

Lemma marked_is_system (marker : string) (added : Conversation) :
  system_count added = 0 -> filter (marked marker) added = [].
Proof.
  induction added as [|t added IH]; [reflexivity|].
  unfold system_count, marked. cbn [filter].
  destruct (role t =? "system"); cbn [andb List.length]; [discriminate|].
  exact IH.
Qed.

(** Turns that are no system turns, put behind a transcript, leave its
    identifier turns as they are: the same turns in the same order. *)
Lemma identifier_turns_app (before added : Conversation) :
  system_count added = 0 ->
  filter is_unique_id_turn (before ++ added)%list
  = filter is_unique_id_turn before
  /\ filter is_readable_id_turn (before ++ added)%list
     = filter is_readable_id_turn before
  /\ identifier_counts (before ++ added)%list = identifier_counts before.
Proof.
  intros H. unfold identifier_counts, is_unique_id_turn, is_readable_id_turn.
  rewrite !filter_app, !(marked_is_system _ _ H), !app_nil_r.
  repeat split.
Qed.

(** C3, as the code has it.  A session that [/start_interview] creates
    holds exactly one turn of each identifier kind: the one carries the
    internal identifier and the other the readable identifier that
    [generate_unique_id] gave at the creation.  In a session that exists,
    every route keeps the turns that are there and puts behind them no
    system turn, so its identifier turns stay the very same turns. *)
Theorem identifier_turns_kept (call : Call) (w : World) (k : string)
  (after : Conversation) :
  Dict.get k (user_sessions (fst (handle limits OPENAI_API_KEY create call w)))
  = Some after ->
  match Dict.get k (user_sessions w), call with
  | Some before, _ =>
      exists added,
        after = (before ++ added)%list
        /\ system_count added = 0
        /\ filter is_unique_id_turn after = filter is_unique_id_turn before
        /\ filter is_readable_id_turn after = filter is_readable_id_turn before
        /\ identifier_counts after = identifier_counts before
  | None, StartInterview timestamp uuid4 _ =>
      let (readable_id, unique_id) := generate_unique_id timestamp uuid4 in
      filter is_unique_id_turn after
      = [system_turn ("UNIQUE_ID: " ++ unique_id)]
      /\ filter is_readable_id_turn after
         = [system_turn ("READABLE_ID: " ++ readable_id)]
      /\ identifier_counts after = (1, 1)
  | None, _ => True
  end.
Proof.
  intros H.
  assert (Hsame : Dict.get k (user_sessions w) = Some after ->
            match Dict.get k (user_sessions w), call with
            | Some before, _ =>
                exists added,
                  after = (before ++ added)%list
                  /\ system_count added = 0
                  /\ filter is_unique_id_turn after
                     = filter is_unique_id_turn before
                  /\ filter is_readable_id_turn after
                     = filter is_readable_id_turn before
                  /\ identifier_counts after = identifier_counts before
            | None, StartInterview timestamp uuid4 _ =>
                let (readable_id, unique_id) :=
                  generate_unique_id timestamp uuid4 in
                filter is_unique_id_turn after
                = [system_turn ("UNIQUE_ID: " ++ unique_id)]
                /\ filter is_readable_id_turn after
                   = [system_turn ("READABLE_ID: " ++ readable_id)]
                /\ identifier_counts after = (1, 1)
            | None, _ => True
            end).
  { intros E. rewrite E. exists []. rewrite app_nil_r. repeat split. }
  destruct call as [|ts uuid k0|k0 message|k0|k0|]; cbn [handle fst] in H;
    try (exact (Hsame H)).
  - (* start_interview *)
    destruct (start_interview ts uuid k0 w) as [w' r] eqn:E.
    assert (Hw : w' = fst (start_interview ts uuid k0 w)) by now rewrite E.
    cbn [fst] in H. subst w'.
    destruct (string_dec k0 k) as [->|Hne].
    + rewrite start_interview_session in H. injection H as <-.
      destruct (Dict.get k (user_sessions w)) as [before|].
      * exists [welcome_turn]. split; [reflexivity|]. split; [reflexivity|].
        now apply identifier_turns_app.
      * repeat split.
    + rewrite start_interview_others in H by assumption.
      exact (Hsame H).
  - (* chat *)
    destruct (string_dec k0 k) as [->|Hne].
    + rewrite (proj1 (chat_session limits OPENAI_API_KEY create k message w)) in H.
      injection H as <-. unfold resolved.
      destruct (Dict.get k (user_sessions w)) as [before|]; [|exact I].
      eexists. split; [reflexivity|]. split; [reflexivity|].
      now apply identifier_turns_app.
    + rewrite chat_others in H by assumption.
      exact (Hsame H).
Qed.

End IdentifierTurns.

Section IdentifierTurnsRuns.
Import Py Json Identifier App Spec.

Lemma identifier_turns_kept_witness :
  let after :=
    (seeded "20240102030405" "0123abcd-ffff-4fff-8fff-ffffffffffff"
     ++ [welcome_turn])%list in
  filter is_unique_id_turn after
  = [system_turn "UNIQUE_ID: 20240102030405-0123abcd"]
  /\ filter is_readable_id_turn after
     = [system_turn "READABLE_ID: 030405-0123ab"]
  /\ identifier_counts after = (1, 1).
Proof.
  exact (identifier_turns_kept stock_limits None (fun _ => inl "hello")
           (StartInterview "20240102030405"
              "0123abcd-ffff-4fff-8fff-ffffffffffff" "u")
           empty_world "u"
           (seeded "20240102030405" "0123abcd-ffff-4fff-8fff-ffffffffffff"
            ++ [welcome_turn])%list
           eq_refl).
Defined.

(** C3 as stated fails: [/chat] for a key without a session creates one
    that holds the instructions turn and no identifier turn. *)
Lemma chat_creates_session_without_identifiers :
  let w := fst (handle stock_limits None (fun _ => inl "hello") (Chat "u" "Hello") empty_world) in
  Dict.get "u" (user_sessions empty_world) = None
  /\ Dict.get "u" (user_sessions w)
     = Some [system_turn SYSTEM_PROMPT; user_turn "Hello";
             assistant_turn no_key_message]
  /\ identifier_counts (lookup "u" (user_sessions w)) = (0, 0).
Proof. vm_compute. repeat split. Qed.

End IdentifierTurnsRuns.

(** ** The exported mapping *)

Section Exporter.
Import Py Json Identifier App Spec.

Lemma markers_exclusive (c : string) :
  startswith c "UNIQUE_ID:" = true -> startswith c "READABLE_ID:" = false.
Proof.
  unfold startswith. destruct c as [|a c]; [discriminate|].
  cbn [String.prefix]. destruct (ascii_dec "U" a) as [<-|]; [|discriminate].
  reflexivity.
Qed.

Lemma scan_identifiers_last (conversation : Conversation)
  (u0 r0 : option string) :
  fold_left scan_identifiers conversation (u0, r0)
  = (match last_identifier "UNIQUE_ID:" conversation with
     | Some u => Some u
     | None => u0
     end,
     match last_identifier "READABLE_ID:" conversation with
     | Some r => Some r
     | None => r0
     end).
Proof.
  revert u0 r0. induction conversation as [|m rest IH]; intros u0 r0.
  - reflexivity.
  - cbn [fold_left last_identifier]. unfold scan_identifiers at 2.
    unfold marked, carried.
    destruct (role m =? "system"); cbn [andb].
    + destruct (startswith (content m) "UNIQUE_ID:") eqn:EU.
      * rewrite (markers_exclusive _ EU), IH.
        destruct (last_identifier "UNIQUE_ID:" rest),
                 (last_identifier "READABLE_ID:" rest); reflexivity.
      * destruct (startswith (content m) "READABLE_ID:"); rewrite IH;
          destruct (last_identifier "UNIQUE_ID:" rest),
                   (last_identifier "READABLE_ID:" rest); reflexivity.
    + rewrite IH.
      destruct (last_identifier "UNIQUE_ID:" rest),
               (last_identifier "READABLE_ID:" rest); reflexivity.
Qed.

Lemma export_session_exported (mapping : Dict.dict json) (user_id : string)
  (conversation : Conversation) :
  export_session mapping (user_id, conversation)
  = match exported user_id conversation with
    | Some (readable_id, row) => Dict.set readable_id row mapping
    | None => mapping
    end.
Proof.
  unfold export_session, exported, message_count.
  rewrite scan_identifiers_last.
  destruct (last_identifier "UNIQUE_ID:" conversation) as [u|],
           (last_identifier "READABLE_ID:" conversation) as [r|];
    try reflexivity.
  destruct (truthy u && truthy r); reflexivity.
Qed.

Lemma last_identifier_present (marker : string) (conversation : Conversation) :
  existsb (marked marker) conversation = false <->
  last_identifier marker conversation = None.
Proof.
  induction conversation as [|m rest IH]; cbn [existsb last_identifier].
  - tauto.
  - destruct (marked marker m); cbn [orb].
    + split; [discriminate|].
      destruct (last_identifier marker rest); discriminate.
    + rewrite IH. destruct (last_identifier marker rest); split; congruence.
Qed.

Lemma exported_needs_both (user_id : string) (conversation : Conversation) :
  existsb is_unique_id_turn conversation = false
  \/ existsb is_readable_id_turn conversation = false ->
  exported user_id conversation = None.
Proof.
  unfold exported, is_unique_id_turn, is_readable_id_turn.
  intros [H|H]; apply last_identifier_present in H; rewrite H.
  - reflexivity.
  - now destruct (last_identifier "UNIQUE_ID:" conversation).
Qed.

Lemma exported_has_both (user_id : string) (conversation : Conversation)
  (x : string * json) :
  exported user_id conversation = Some x ->
  existsb is_unique_id_turn conversation = true
  /\ existsb is_readable_id_turn conversation = true.
Proof.
  intros H. split.
  - destruct (existsb is_unique_id_turn conversation) eqn:E; [reflexivity|].
    rewrite exported_needs_both in H by now left. discriminate.
  - destruct (existsb is_readable_id_turn conversation) eqn:E; [reflexivity|].
    rewrite exported_needs_both in H by now right. discriminate.
Qed.

Lemma export_fold_origin (sessions : Sessions) (acc : Dict.dict json)
  (readable_id : string) (row : json) :
  Dict.get readable_id (fold_left export_session sessions acc) = Some row ->
  Dict.get readable_id acc = Some row
  \/ exists user_id conversation,
       In (user_id, conversation) sessions
       /\ exported user_id conversation = Some (readable_id, row).
Proof.
  revert acc. induction sessions as [|[k c] rest IH]; intros acc H.
  - now left.
  - cbn [fold_left] in H. apply IH in H. destruct H as [H|[k' [c' [Hin He]]]].
    + rewrite export_session_exported in H.
      destruct (exported k c) as [[rid row']|] eqn:E; [|now left].
      destruct (string_dec rid readable_id) as [->|Hne].
      * rewrite get_set_same in H. injection H as ->.
        right. exists k, c. split; [now left | exact E].
      * rewrite get_set_other in H by assumption. now left.
    + right. exists k', c'. split; [now right | exact He].
Qed.

Lemma export_fold_untouched (sessions : Sessions) (acc : Dict.dict json)
  (readable_id : string) :
  (forall user_id conversation row,
     In (user_id, conversation) sessions ->
     exported user_id conversation <> Some (readable_id, row)) ->
  Dict.get readable_id (fold_left export_session sessions acc)
  = Dict.get readable_id acc.
Proof.
  revert acc. induction sessions as [|[k c] rest IH]; intros acc H.
  - reflexivity.
  - cbn [fold_left]. rewrite IH.
    + rewrite export_session_exported.
      destruct (exported k c) as [[rid row]|] eqn:E; [|reflexivity].
      apply get_set_other. intros ->.
      apply (H k c row); [now left | exact E].
    + intros k' c' row Hin. apply H. now right.
Qed.

(** C6, as the code has it.  Every entry of the exported mapping is the
    row, under its readable identifier, of a session of the store that
    holds both identifier system turns: the internal identifier, the
    session key and the count of non-system turns.  A session that misses
    either identifier turn contributes no row and raises no error.  A
    session that contributes a row has it in the mapping unless a later
    session of the store contributes a row under the same readable
    identifier. *)
Theorem export_mapping_rows (w : World) :
  export_mapping w = jsonify (JObj (export_table (user_sessions w)))
  /\ (forall readable_id row,
        Dict.get readable_id (export_table (user_sessions w)) = Some row ->
        exists user_id conversation,
          In (user_id, conversation) (user_sessions w)
          /\ existsb is_unique_id_turn conversation = true
          /\ existsb is_readable_id_turn conversation = true
          /\ exported user_id conversation = Some (readable_id, row))
  /\ (forall user_id conversation,
        existsb is_unique_id_turn conversation = false
        \/ existsb is_readable_id_turn conversation = false ->
        exported user_id conversation = None)
  /\ (forall earlier user_id conversation later readable_id row,
        user_sessions w = (earlier ++ (user_id, conversation) :: later)%list ->
        exported user_id conversation = Some (readable_id, row) ->
        (forall user_id' conversation' row',
           In (user_id', conversation') later ->
           exported user_id' conversation' <> Some (readable_id, row')) ->
        Dict.get readable_id (export_table (user_sessions w)) = Some row).
Proof.
  split; [reflexivity|]. split; [|split].
  - intros rid row H. unfold export_table in H.
    apply export_fold_origin in H. destruct H as [H|[k [c [Hin He]]]].
    + discriminate.
    + exists k, c. destruct (exported_has_both _ _ _ He). auto.
  - apply exported_needs_both.
  - intros earlier k c later rid row Hs He Hlater.
    unfold export_table. rewrite Hs, fold_left_app. cbn [fold_left].
    rewrite export_fold_untouched by assumption.
    rewrite export_session_exported, He. apply get_set_same.
Qed.

(** C6 as stated fails: two sessions created at the same time of day on
    two days, with random tokens that agree on six characters, share a
    readable identifier; both hold both identifier turns, and the mapping
    has a row for the second only. *)
Lemma export_mapping_shared_readable_id :
  let w1 := fst (start_interview "20240102030405"
                   "0123abcd-ffff-4fff-8fff-ffffffffffff" "a" empty_world) in
  let w2 := fst (start_interview "20240103030405"
                   "0123abff-ffff-4fff-8fff-ffffffffffff" "b" w1) in
  existsb is_unique_id_turn (lookup "a" (user_sessions w2)) = true
  /\ existsb is_readable_id_turn (lookup "a" (user_sessions w2)) = true
  /\ export_table (user_sessions w2)
     = [("030405-0123ab",
         JObj [("unique_id", JStr "20240103030405-0123abff");
               ("user_id", JStr "b");
               ("message_count", JInt 1)])].
Proof. vm_compute. repeat split. Qed.

Lemma export_mapping_rows_witness :
  let w := fst (start_interview "20240102030405"
                  "0123abcd-ffff-4fff-8fff-ffffffffffff" "a" empty_world) in
  Dict.get "030405-0123ab" (export_table (user_sessions w))
  = Some (JObj [("unique_id", JStr "20240102030405-0123abcd");
                ("user_id", JStr "a");
                ("message_count", JInt 1)]).
Proof.
  refine (proj2 (proj2 (proj2 (export_mapping_rows
            (fst (start_interview "20240102030405"
                    "0123abcd-ffff-4fff-8fff-ffffffffffff" "a" empty_world)))))
          [] "a" _ [] "030405-0123ab" _ eq_refl eq_refl _).
  intros k c row [].
Defined.

End Exporter.

(** ** The loops of the decoder *)

Section Rounds.
Import Py Json.

Lemma skip_ws_length (s : string) :
  String.length (skip_ws s) <= String.length s.
Proof.
  induction s as [|c s IH]; cbn [skip_ws]; [lia|].
  destruct (is_ws c); cbn [String.length]; lia.
Qed.

Lemma shrinks_push (c : ascii) (s s' : string) (r : scanned string) :
  String.length s <= String.length s' ->
  shrinks s r -> shrinks s' (push c r).
Proof. destruct r; cbn; intros; try tauto; lia. Qed.

Lemma scanstring_shrinks (n : nat) :
  forall s, String.length s <= n -> shrinks s (scanstring s).
Proof.
  induction n as [|n IH]; intros s Hn.
  - destruct s; [exact I | cbn in Hn; lia].
  - destruct s as [|c s1]; [exact I|]. cbn [scanstring].
    cbn [String.length] in Hn.
    destruct (nat_of_ascii c =? 34)%nat; [cbn; lia|].
    destruct (nat_of_ascii c =? 92)%nat.
    + destruct s1 as [|e s2]; [exact I|]. cbn [String.length] in Hn.
      destruct (nat_of_ascii e =? 117)%nat.
      * destruct s2 as [|h1 [|h2 [|h3 [|h4 s3]]]]; try exact I.
        destruct (hex4 h1 h2 h3 h4) as [code|]; [|exact I].
        destruct (code <? 256)%nat; [|exact I].
        apply shrinks_push with (s := s3);
          [cbn [String.length]; lia | apply IH; cbn [String.length] in Hn; lia].
      * destruct (unescape e); [|exact I].
        apply shrinks_push with (s := s2);
          [cbn [String.length]; lia | apply IH; lia].
    + destruct (nat_of_ascii c <? 32)%nat; [exact I|].
      apply shrinks_push with (s := s1);
        [cbn [String.length]; lia | apply IH; lia].
Qed.

Lemma span_digits_length (s : string) :
  String.length (snd (span_digits s)) <= String.length s.
Proof.
  induction s as [|c s IH]; cbn [span_digits]; [cbn; lia|].
  destruct (is_digit c); [|cbn; lia].
  destruct (span_digits s) as [ds rest]. cbn [snd String.length] in *. lia.
Qed.

Lemma match_integer_length (s : string) (neg : bool) (digits r : string) :
  match_integer s = Some (neg, digits, r) ->
  String.length r < String.length s.
Proof.
  unfold match_integer.
  assert (H : forall (b : bool) (s1 : string),
             String.length s1 <= String.length s ->
             match s1 with
             | EmptyString => None
             | String c r0 =>
                 if (nat_of_ascii c =? 48)%nat then Some (b, String c "", r0)
                 else if is_digit c
                 then let (ds, rest) := span_digits r0 in
                      Some (b, String c ds, rest)
                 else None
             end = Some (neg, digits, r) ->
             String.length r < String.length s).
  { intros b s1 Hs1. destruct s1 as [|c r0]; [discriminate|].
    cbn [String.length] in Hs1.
    destruct (nat_of_ascii c =? 48)%nat.
    - intros E. injection E as _ _ <-. lia.
    - destruct (is_digit c); [|discriminate].
      pose proof (span_digits_length r0) as Hl.
      destruct (span_digits r0) as [ds rest]. cbn [snd] in Hl.
      intros E. injection E as _ _ <-. lia. }
  destruct s as [|c r0].
  - exact (H false "" (le_n _)).
  - destruct (nat_of_ascii c =? 45)%nat.
    + exact (H true r0 (Nat.le_succ_diag_r _)).
    + exact (H false (String c r0) (le_n _)).
Qed.

Lemma match_frac_length (s : string) :
  String.length (snd (match_frac s)) <= String.length s.
Proof.
  unfold match_frac. destruct s as [|c r]; [cbn; lia|].
  destruct (nat_of_ascii c =? 46)%nat; [|cbn; lia].
  pose proof (span_digits_length r) as Hl.
  destruct (span_digits r) as [[|d ds] rest]; cbn [snd String.length] in *; lia.
Qed.

Lemma match_exp_length (s : string) :
  String.length (snd (match_exp s)) <= String.length s.
Proof.
  unfold match_exp. destruct s as [|e r]; [cbn; lia|].
  destruct ((nat_of_ascii e =? 101) || (nat_of_ascii e =? 69))%nat; [|cbn; lia].
  assert (H : forall sign r1,
             String.length r1 <= String.length r ->
             String.length
               (snd (match span_digits r1 with
                     | (EmptyString, _) => ("", String e r)
                     | (ds, rest) => (String e (sign ++ ds), rest)
                     end)) <= String.length (String e r)).
  { intros sign r1 Hr1. pose proof (span_digits_length r1) as Hl.
    destruct (span_digits r1) as [[|d ds] rest];
      cbn [snd String.length] in *; lia. }
  destruct r as [|c r'].
  - exact (H "" "" (le_n _)).
  - destruct ((nat_of_ascii c =? 43) || (nat_of_ascii c =? 45))%nat.
    + exact (H (String c "") r' (Nat.le_succ_diag_r _)).
    + exact (H "" (String c r') (le_n _)).
Qed.

Lemma match_number_shrinks (limits : Limits) (s : string) (r : scanned json) :
  match_number limits s = Some r -> shrinks s r.
Proof.
  unfold match_number.
  destruct (match_integer s) as [[[neg digits] r0]|] eqn:E; [|discriminate].
  apply match_integer_length in E.
  pose proof (match_frac_length r0) as Hf.
  destruct (match_frac r0) as [frac r1]. cbn [snd] in Hf.
  pose proof (match_exp_length r1) as He.
  destruct (match_exp r1) as [exp r2]. cbn [snd] in He.
  destruct (truthy frac || truthy exp).
  - intros H. injection H as <-. cbn. lia.
  - destruct (exceeds limits digits); intros H; injection H as <-;
      [exact I | cbn; lia].
Qed.

Lemma substring_length (n m : nat) (s : string) :
  String.length (substring n m s) <= m.
Proof.
  revert n m. induction s as [|c s IH]; intros n m.
  - destruct n, m; cbn; lia.
  - destruct n as [|n]; [destruct m as [|m]|]; cbn [substring String.length].
    + lia.
    + specialize (IH 0 m). lia.
    + apply IH.
Qed.

Lemma drop_shrinks {A : Type} (n : nat) (c : ascii) (s : string) (a : A) :
  0 < n -> shrinks (String c s) (Scanned a (drop n (String c s))).
Proof.
  intros Hn. unfold drop, shrinks.
  pose proof (substring_length n (String.length (String c s) - n) (String c s)).
  cbn [String.length] in *. lia.
Qed.

Section Loops.
Variable scan : string -> scanned json.
Hypothesis scan_shrinks : forall s, shrinks s (scan s).

Lemma array_items_shrinks (n : nat) :
  forall s, String.length s <= n -> 0 < n -> shrinks s (array_items scan n s).
Proof.
  induction n as [|n IH]; intros s Hs Hn; [lia|].
  cbn [array_items].
  pose proof (scan_shrinks s) as H.
  destruct (scan s) as [v rest| | | | |]; cbn [bind]; try exact H.
  cbn [shrinks] in H.
  pose proof (skip_ws_length rest) as Hw.
  destruct (skip_ws rest) as [|c r]; [exact I|].
  cbn [String.length] in Hw.
  destruct (nat_of_ascii c =? 93)%nat; [cbn; lia|].
  destruct (nat_of_ascii c =? 44)%nat; [|exact I].
  pose proof (skip_ws_length r) as Hr.
  assert (Hrec : shrinks (skip_ws r) (array_items scan n (skip_ws r)))
    by (apply IH; lia).
  destruct (array_items scan n (skip_ws r)); cbn [bind shrinks] in *;
    try tauto; lia.
Qed.

Lemma object_pairs_shrinks (n : nat) :
  forall s, String.length s < n -> shrinks s (object_pairs scan n s).
Proof.
  induction n as [|n IH]; intros s Hs; [lia|].
  cbn [object_pairs].
  pose proof (scanstring_shrinks _ s (le_n _)) as H.
  destruct (scanstring s) as [key rest| | | | |]; cbn [bind]; try exact H.
  cbn [shrinks] in H.
  pose proof (skip_ws_length rest) as Hw.
  destruct (skip_ws rest) as [|colon r]; [exact I|].
  cbn [String.length] in Hw.
  destruct (nat_of_ascii colon =? 58)%nat; [|exact I].
  pose proof (skip_ws_length r) as Hr.
  pose proof (scan_shrinks (skip_ws r)) as Hv.
  destruct (scan (skip_ws r)) as [v rest1| | | | |]; cbn [bind]; try exact Hv.
  cbn [shrinks] in Hv.
  pose proof (skip_ws_length rest1) as Hw1.
  destruct (skip_ws rest1) as [|c r1]; [exact I|].
  cbn [String.length] in Hw1.
  destruct (nat_of_ascii c =? 125)%nat; [cbn; lia|].
  destruct (nat_of_ascii c =? 44)%nat; [|exact I].
  pose proof (skip_ws_length r1) as Hw2.
  destruct (skip_ws r1) as [|q r2]; [exact I|].
  cbn [String.length] in Hw2.
  destruct (nat_of_ascii q =? 34)%nat; [|exact I].
  assert (Hrec : shrinks r2 (object_pairs scan n r2)) by (apply IH; lia).
  destruct (object_pairs scan n r2); cbn [bind shrinks] in *; try tauto; lia.
Qed.

End Loops.

Lemma scan_once_shrinks (limits : Limits) (depth : nat) :
  forall s, shrinks s (scan_once limits depth s).
Proof.
  assert (Hrest : forall s : string,
            shrinks s
              (if String.prefix "null" s then Scanned JNull (drop 4 s)
               else if String.prefix "true" s then Scanned (JBool true) (drop 4 s)
               else if String.prefix "false" s
               then Scanned (JBool false) (drop 5 s)
               else
                 match match_number limits s with
                 | Some number => number
                 | None =>
                     if String.prefix "NaN" s
                     then Scanned (JFloat "NaN") (drop 3 s)
                     else if String.prefix "Infinity" s
                     then Scanned (JFloat "Infinity") (drop 8 s)
                     else if String.prefix "-Infinity" s
                     then Scanned (JFloat "-Infinity") (drop 9 s)
                     else DecodeError
                 end)).
  { intros [|c s]; [reflexivity|].
    destruct (String.prefix "null" _); [apply drop_shrinks; lia|].
    destruct (String.prefix "true" _); [apply drop_shrinks; lia|].
    destruct (String.prefix "false" _); [apply drop_shrinks; lia|].
    destruct (match_number limits _) as [number|] eqn:E;
      [exact (match_number_shrinks _ _ _ E)|].
    destruct (String.prefix "NaN" _); [apply drop_shrinks; lia|].
    destruct (String.prefix "Infinity" _); [apply drop_shrinks; lia|].
    destruct (String.prefix "-Infinity" _); [apply drop_shrinks; lia|].
    exact I. }
  assert (Hstring : forall s' : string,
            shrinks (String (ascii_of_nat 34) s')
              (bind (scanstring s') (fun str rest => Scanned (JStr str) rest))).
  { intros s'. pose proof (scanstring_shrinks _ s' (le_n _)) as H.
    destruct (scanstring s'); cbn [bind shrinks String.length] in *;
      try tauto; lia. }
  induction depth as [|depth IH]; intros s; (destruct s as [|c s']; [exact I|]).
  - cbn [scan_once].
    destruct (nat_of_ascii c =? 34)%nat eqn:Eq.
    { pose proof (Hstring s') as H.
      destruct (scanstring s'); cbn [bind shrinks String.length] in *;
        try tauto; lia. }
    destruct (nat_of_ascii c =? 123)%nat; [exact I|].
    destruct (nat_of_ascii c =? 91)%nat; [exact I|].
    apply Hrest.
  - cbn [scan_once].
    destruct (nat_of_ascii c =? 34)%nat eqn:Eq.
    { pose proof (Hstring s') as H.
      destruct (scanstring s'); cbn [bind shrinks String.length] in *;
        try tauto; lia. }
    destruct (nat_of_ascii c =? 123)%nat.
    { pose proof (skip_ws_length s') as Hw.
      destruct (skip_ws s') as [|c1 r]; [exact I|].
      cbn [String.length] in Hw.
      destruct (nat_of_ascii c1 =? 125)%nat; [cbn; lia|].
      destruct (nat_of_ascii c1 =? 34)%nat; [|exact I].
      pose proof (object_pairs_shrinks _ IH (S (String.length r)) r
                    (Nat.lt_succ_diag_r _)) as H.
      destruct (object_pairs _ _ r); cbn [bind shrinks String.length] in *;
        try tauto; lia. }
    destruct (nat_of_ascii c =? 91)%nat.
    { pose proof (skip_ws_length s') as Hw.
      destruct (skip_ws s') as [|c1 r]; [exact I|].
      cbn [String.length] in Hw.
      destruct (nat_of_ascii c1 =? 93)%nat; [cbn; lia|].
      pose proof (array_items_shrinks _ IH (S (String.length r)) (String c1 r)
                    (le_n _) (Nat.lt_0_succ _)) as H.
      destruct (array_items _ _ (String c1 r));
        cbn [bind shrinks String.length] in *; try tauto; lia. }
    apply Hrest.
Qed.

(** The rounds counted for the loops are always enough. *)
Lemma steps_suffice (limits : Limits) (depth : nat) (s : string) :
  scan_once limits depth s <> OutOfSteps.
Proof.
  intros H. pose proof (scan_once_shrinks limits depth s) as Hs.
  rewrite H in Hs. exact Hs.
Qed.

(** So the decoder leaves the model only at an escape above 255. *)
Lemma loads_not_modelled (limits : Limits) (text : string) :
  loads limits text = NotModelled ->
  scan_once limits (depth_limit limits) (skip_ws text) = Unmodelled.
Proof.
  unfold loads.
  pose proof (steps_suffice limits (depth_limit limits) (skip_ws text)) as H.
  destruct (scan_once limits (depth_limit limits) (skip_ws text))
    as [v rest| | | | |]; try discriminate; try reflexivity.
  - destruct (skip_ws rest); discriminate.
  - now destruct H.
Qed.

End Rounds.

(** ** Saving and loading the store *)

Section Decoding.
Import Py Json.

Lemma scanstring_escape_char (c : ascii) (t : string) :
  scanstring (escape_char c ++ t) = push c (scanstring t).
Proof. destruct c as [[] [] [] [] [] [] [] []]; reflexivity. Qed.

Lemma scanstring_escape (s t : string) :
  scanstring (escape s ++ dq ++ t) = Scanned s t.
Proof.
  induction s as [|c s IH]; cbn [escape].
  - reflexivity.
  - rewrite append_assoc, scanstring_escape_char, IH. reflexivity.
Qed.

Lemma scan_once_string (l : Limits) (d : nat) (s t : string) :
  scan_once l d (encode_string s ++ t) = Scanned (JStr s) t.
Proof.
  unfold encode_string. rewrite !append_assoc.
  transitivity (bind (scanstring (escape s ++ dq ++ t))
                  (fun str rest => Scanned (JStr str) rest)).
  - destruct d; reflexivity.
  - now rewrite scanstring_escape.
Qed.

Lemma skip_ws_spaces (k : nat) (t : string) :
  skip_ws (spaces k ++ t) = skip_ws t.
Proof. induction k as [|k IH]; [reflexivity | exact IH]. Qed.

Lemma skip_ws_indent (k : nat) (t : string) :
  skip_ws (nl ++ spaces k ++ t) = skip_ws t.
Proof. exact (skip_ws_spaces k t). Qed.

Section Items.
Context {A : Type}.
Variable scan : string -> scanned json.
Variable dump : A -> string.
Variable val : A -> json.
Variables k k0 : nat.
Hypothesis scan_dump : forall a t, scan (dump a ++ t) = Scanned (val a) t.
Hypothesis dump_solid : forall a t, skip_ws (dump a ++ t) = dump a ++ t.

Lemma array_items_all (xs : list A) :
  forall (x : A) (n : nat) (t : string),
    List.length xs < n ->
    array_items scan n
      (dump x ++ fold_right (fun y acc => "," ++ nl ++ spaces k ++ dump y ++ acc)
                   (nl ++ spaces k0 ++ "]" ++ t) xs)
    = Scanned (val x :: map val xs) t.
Proof.
  induction xs as [|y ys IH]; intros x n t Hn;
    (destruct n as [|n]; [inversion Hn|]); cbn [fold_right map array_items].
  - rewrite scan_dump. cbn [bind]. rewrite skip_ws_indent. reflexivity.
  - rewrite scan_dump. cbn [bind].
    transitivity
      (bind (array_items scan n
               (skip_ws (nl ++ spaces k ++ dump y
                         ++ fold_right
                              (fun y acc => "," ++ nl ++ spaces k ++ dump y ++ acc)
                              (nl ++ spaces k0 ++ "]" ++ t) ys)))
            (fun vs rest' => Scanned (val x :: vs) rest')).
    + reflexivity.
    + rewrite skip_ws_indent, dump_solid, IH by (cbn in Hn; lia). reflexivity.
Qed.

Variable key : A -> string.

Lemma object_pairs_all (xs : list A) :
  forall (x : A) (n : nat) (t : string),
    List.length xs < n ->
    object_pairs scan n
      (escape (key x) ++ dq ++ ": " ++ dump x
       ++ fold_right
            (fun y acc => "," ++ nl ++ spaces k ++ dq ++ escape (key y) ++ dq
                          ++ ": " ++ dump y ++ acc)
            (nl ++ spaces k0 ++ "}" ++ t) xs)
    = Scanned ((key x, val x) :: map (fun y => (key y, val y)) xs) t.
Proof.
  induction xs as [|y ys IH]; intros x n t Hn;
    (destruct n as [|n]; [inversion Hn|]); cbn [fold_right map object_pairs];
    rewrite scanstring_escape; cbn [bind].
  - transitivity
      (bind (scan (skip_ws (dump x ++ nl ++ spaces k0 ++ "}" ++ t)))
         (fun v rest1 =>
            match skip_ws rest1 with
            | String c r1 =>
                if (nat_of_ascii c =? 125)%nat then Scanned [(key x, v)] r1
                else if (nat_of_ascii c =? 44)%nat then
                  match skip_ws r1 with
                  | String q r2 =>
                      if (nat_of_ascii q =? 34)%nat then
                        bind (object_pairs scan n r2)
                          (fun kvs rest' => Scanned ((key x, v) :: kvs) rest')
                      else DecodeError
                  | EmptyString => DecodeError
                  end
                else DecodeError
            | EmptyString => DecodeError
            end)); [reflexivity|].
    rewrite dump_solid, scan_dump. cbn [bind]. rewrite skip_ws_indent.
    reflexivity.
  - set (more := fold_right _ _ ys).
    transitivity
      (bind (scan (skip_ws (dump x ++ "," ++ nl ++ spaces k ++ dq
                            ++ escape (key y) ++ dq ++ ": " ++ dump y ++ more)))
         (fun v rest1 =>
            match skip_ws rest1 with
            | String c r1 =>
                if (nat_of_ascii c =? 125)%nat then Scanned [(key x, v)] r1
                else if (nat_of_ascii c =? 44)%nat then
                  match skip_ws r1 with
                  | String q r2 =>
                      if (nat_of_ascii q =? 34)%nat then
                        bind (object_pairs scan n r2)
                          (fun kvs rest' => Scanned ((key x, v) :: kvs) rest')
                      else DecodeError
                  | EmptyString => DecodeError
                  end
                else DecodeError
            | EmptyString => DecodeError
            end)); [reflexivity|].
    rewrite dump_solid, scan_dump. cbn [bind].
    transitivity
      (match skip_ws (nl ++ spaces k ++ dq ++ escape (key y) ++ dq ++ ": "
                      ++ dump y ++ more) with
       | String q r2 =>
           if (nat_of_ascii q =? 34)%nat then
             bind (object_pairs scan n r2)
               (fun kvs rest' => Scanned ((key x, val x) :: kvs) rest')
           else DecodeError
       | EmptyString => DecodeError
       end); [reflexivity|].
    rewrite skip_ws_indent.
    transitivity
      (bind (object_pairs scan n
               (escape (key y) ++ dq ++ ": " ++ dump y ++ more))
         (fun kvs rest' => Scanned ((key x, val x) :: kvs) rest'));
      [reflexivity|].
    unfold more. rewrite IH by (cbn in Hn; lia). reflexivity.
Qed.

End Items.

End Decoding.

Section Layout.
Import Py Json App.

Lemma concat_map_fold {A : Type} (sep : string) (f : A -> string)
  (xs : list A) :
  forall (x : A) (tail : string),
    String.concat sep (map f (x :: xs)) ++ tail
    = f x ++ fold_right (fun y acc => sep ++ f y ++ acc) tail xs.
Proof.
  induction xs as [|y ys IH]; intros x tail.
  - reflexivity.
  - cbn [map fold_right].
    change (String.concat sep (f x :: f y :: map f ys))
      with (f x ++ sep ++ String.concat sep (map f (y :: ys))).
    rewrite !append_assoc, IH. reflexivity.
Qed.

Lemma fold_right_grows {A : Type} (step : A -> string -> string)
  (tail : string) (xs : list A) :
  (forall y acc, String.length acc < String.length (step y acc)) ->
  List.length xs + String.length tail
  <= String.length (fold_right step tail xs).
Proof.
  intros H. induction xs as [|y ys IH]; cbn [fold_right List.length].
  - lia.
  - specialize (H y (fold_right step tail ys)). lia.
Qed.

Lemma scan_once_object (l : Limits) (d : nat) (s' r : string)
  (kvs : list (string * json)) (t : string) :
  skip_ws s' = String (ascii_of_nat 34) r ->
  object_pairs (scan_once l d) (S (String.length r)) r = Scanned kvs t ->
  scan_once l (S d) (String "{" s') = Scanned (JObj (Dict.of_pairs kvs)) t.
Proof.
  intros H1 H2.
  transitivity
    (match skip_ws s' with
     | String c1 r =>
         if (nat_of_ascii c1 =? 125)%nat then Scanned (JObj []) r
         else if (nat_of_ascii c1 =? 34)%nat then
           bind (object_pairs (scan_once l d) (S (String.length r)) r)
             (fun kvs rest => Scanned (JObj (Dict.of_pairs kvs)) rest)
         else DecodeError
     | EmptyString => DecodeError
     end); [reflexivity|].
  rewrite H1.
  transitivity
    (bind (object_pairs (scan_once l d) (S (String.length r)) r)
       (fun kvs rest => Scanned (JObj (Dict.of_pairs kvs)) rest));
    [reflexivity|].
  now rewrite H2.
Qed.

Lemma scan_once_array (l : Limits) (d : nat) (s' : string) (c : ascii)
  (r : string) (vs : list json) (t : string) :
  skip_ws s' = String c r ->
  (nat_of_ascii c =? 93)%nat = false ->
  array_items (scan_once l d) (S (String.length r)) (String c r)
  = Scanned vs t ->
  scan_once l (S d) (String "[" s') = Scanned (JArr vs) t.
Proof.
  intros H1 Hc H2.
  transitivity
    (match skip_ws s' with
     | String c1 r =>
         if (nat_of_ascii c1 =? 93)%nat then Scanned (JArr []) r
         else
           bind (array_items (scan_once l d) (S (String.length r))
                   (String c1 r))
             (fun vs rest => Scanned (JArr vs) rest)
     | EmptyString => DecodeError
     end); [reflexivity|].
  rewrite H1, Hc, H2. reflexivity.
Qed.

(** The text of a turn, piece by piece. *)
Lemma turn_text (t : Turn) (rest : string) :
  dumps_at (Some 2) 2 (turn_to_json t) ++ rest
  = String "{"
      (nl ++ spaces 6 ++ dq
       ++ escape "role" ++ dq ++ ": " ++ encode_string (role t)
       ++ fold_right
            (fun y acc => "," ++ nl ++ spaces 6 ++ dq ++ escape (fst y) ++ dq
                          ++ ": " ++ encode_string (snd y) ++ acc)
            (nl ++ spaces 4 ++ "}" ++ rest)
            [("content", content t)]).
Proof.
  unfold turn_to_json.
  cbn [dumps_at map String.concat newline_indent item_separator fst snd
       fold_right].
  unfold encode_string. rewrite !append_assoc. reflexivity.
Qed.

Lemma scan_turn (l : Limits) (d : nat) (t : Turn) (rest : string) :
  scan_once l (S d) (dumps_at (Some 2) 2 (turn_to_json t) ++ rest)
  = Scanned (turn_to_json t) rest.
Proof.
  rewrite turn_text.
  set (more := fold_right _ _ _).
  rewrite (scan_once_object l d _
             (escape "role" ++ dq ++ ": " ++ encode_string (role t) ++ more)
             [("role", JStr (role t)); ("content", JStr (content t))] rest).
  - reflexivity.
  - reflexivity.
  - unfold more.
    apply (object_pairs_all (scan_once l d)
             (fun a : string * string => encode_string (snd a))
             (fun a => JStr (snd a)) 6 4
             (fun a t => scan_once_string l d (snd a) t)
             (fun a t => eq_refl) fst
             [("content", content t)] ("role", role t)).
    fold more. rewrite !length_append. cbn. lia.
Qed.

End Layout.

Section Documents.
Import Py Json App Spec.

Lemma fold_right_same {A : Type} (g h : A -> string -> string)
  (tail : string) (xs : list A) :
  (forall y acc, g y acc = h y acc) ->
  fold_right g tail xs = fold_right h tail xs.
Proof.
  intros H. induction xs as [|y ys IH]; cbn [fold_right].
  - reflexivity.
  - now rewrite IH, H.
Qed.

Lemma turn_dump_opens (t : Turn) (rest : string) :
  exists r, turn_dump t ++ rest = String "{" r
            /\ String.length rest <= String.length r.
Proof.
  unfold turn_dump. rewrite turn_text. eexists. split; [reflexivity|].
  cbn [fold_right]. rewrite !length_append. lia.
Qed.

Lemma conversation_text_nonempty (x : Turn) (xs : list Turn) (rest : string) :
  dumps_at (Some 2) 1 (JArr (map turn_to_json (x :: xs))) ++ rest
  = String "["
      (nl ++ spaces 4
       ++ turn_dump x
       ++ fold_right (fun y acc => "," ++ nl ++ spaces 4 ++ turn_dump y ++ acc)
            (nl ++ spaces 2 ++ "]" ++ rest) xs).
Proof.
  change (dumps_at (Some 2) 1 (JArr (map turn_to_json (x :: xs))))
    with ("[" ++ nl ++ spaces 4
          ++ String.concat ("," ++ nl ++ spaces 4)
               (map (dumps_at (Some 2) 2) (map turn_to_json (x :: xs)))
          ++ nl ++ spaces 2 ++ "]").
  rewrite map_map, !append_assoc.
  rewrite (concat_map_fold ("," ++ nl ++ spaces 4)
             (fun t => dumps_at (Some 2) 2 (turn_to_json t)) xs x).
  reflexivity.
Qed.

Lemma scan_conversation (l : Limits) (d : nat) (kc : string * Conversation)
  (rest : string) :
  scan_once l (S (S d)) (conversation_dump kc ++ rest)
  = Scanned (JArr (map turn_to_json (snd kc))) rest.
Proof.
  unfold conversation_dump. destruct (snd kc) as [|x xs]; [reflexivity|].
  rewrite conversation_text_nonempty.
  set (more := fold_right _ _ xs).
  destruct (turn_dump_opens x more) as [r [Hr Hlen]].
  apply (scan_once_array l (S d) _ "{" r).
  - rewrite skip_ws_indent, Hr. reflexivity.
  - reflexivity.
  - rewrite <- Hr. unfold more.
    change (map turn_to_json (x :: xs))
      with (turn_to_json x :: map turn_to_json xs).
    apply (array_items_all (scan_once l (S d)) turn_dump turn_to_json 4 2
             (fun a t => scan_turn l d a t)).
    + intros a t. destruct (turn_dump_opens a t) as [r' [Hr' _]].
      rewrite Hr'. reflexivity.
    + fold more.
      assert (Hm : List.length xs + String.length (nl ++ spaces 2 ++ "]" ++ rest)
                   <= String.length more).
      { apply fold_right_grows. intros y acc.
        rewrite !length_append. cbn. lia. }
      rewrite !length_append in Hm. cbn in Hm. lia.
Qed.

Lemma conversation_dump_solid (kc : string * Conversation) (t : string) :
  skip_ws (conversation_dump kc ++ t) = conversation_dump kc ++ t.
Proof.
  unfold conversation_dump. destruct (snd kc) as [|x xs]; [reflexivity|].
  rewrite conversation_text_nonempty. reflexivity.
Qed.

Lemma sessions_text_nonempty (x : string * Conversation) (xs : Sessions)
  (rest : string) :
  dumps (Some 2) (sessions_to_json (x :: xs)) ++ rest
  = String "{"
      (nl ++ spaces 2 ++ dq
       ++ escape (fst x) ++ dq ++ ": " ++ conversation_dump x
       ++ fold_right
            (fun y acc => "," ++ nl ++ spaces 2 ++ dq ++ escape (fst y) ++ dq
                          ++ ": " ++ conversation_dump y ++ acc)
            (nl ++ spaces 0 ++ "}" ++ rest) xs).
Proof.
  unfold dumps, sessions_to_json.
  change (dumps_at (Some 2) 0
            (JObj (map (fun kc => (fst kc, JArr (map turn_to_json (snd kc))))
                     (x :: xs))))
    with ("{" ++ nl ++ spaces 2
          ++ String.concat ("," ++ nl ++ spaces 2)
               (map (fun kv => encode_string (fst kv) ++ ": "
                               ++ dumps_at (Some 2) 1 (snd kv))
                  (map (fun kc => (fst kc, JArr (map turn_to_json (snd kc))))
                     (x :: xs)))
          ++ nl ++ spaces 0 ++ "}").
  rewrite map_map, !append_assoc.
  rewrite (concat_map_fold ("," ++ nl ++ spaces 2)
             (fun kc : string * Conversation =>
                encode_string (fst kc) ++ ": " ++ conversation_dump kc) xs x).
  unfold encode_string. rewrite !append_assoc.
  rewrite (fold_right_same _
             (fun y acc => "," ++ nl ++ spaces 2 ++ dq ++ escape (fst y) ++ dq
                           ++ ": " ++ conversation_dump y ++ acc)).
  - reflexivity.
  - intros y acc. rewrite !append_assoc. reflexivity.
Qed.

Lemma scan_sessions (l : Limits) (d : nat) (x : string * Conversation)
  (xs : Sessions) (rest : string) :
  scan_once l (S (S (S d))) (dumps (Some 2) (sessions_to_json (x :: xs)) ++ rest)
  = Scanned
      (JObj (Dict.of_pairs
               (map (fun kc => (fst kc, JArr (map turn_to_json (snd kc))))
                  (x :: xs))))
      rest.
Proof.
  rewrite sessions_text_nonempty.
  set (more := fold_right _ _ xs).
  apply (scan_once_object l (S (S d)) _
           (escape (fst x) ++ dq ++ ": " ++ conversation_dump x ++ more)).
  - reflexivity.
  - unfold more.
    apply (object_pairs_all (scan_once l (S (S d))) conversation_dump
             (fun kc => JArr (map turn_to_json (snd kc))) 2 0
             (fun a t => scan_conversation l d a t)
             conversation_dump_solid fst xs x).
    fold more.
    assert (Hm : List.length xs + String.length (nl ++ spaces 0 ++ "}" ++ rest)
                 <= String.length more).
    { apply fold_right_grows. intros y acc.
      rewrite !length_append. cbn. lia. }
    generalize (conversation_dump x) (escape (fst x)). intros dx ex.
    clearbody more. rewrite !length_append in Hm. rewrite !length_append.
    cbn in Hm |- *. lia.
Qed.

End Documents.

Section RoundTrip.
Import Py Json App Spec.

Lemma set_fresh {V : Type} (k : string) (v : V) (d : Dict.dict V) :
  ~ In k (Dict.keys d) -> Dict.set k v d = (d ++ [(k, v)])%list.
Proof.
  induction d as [|[k' v'] d IH]; intros H; cbn [Dict.set app].
  - reflexivity.
  - cbn in H. destruct (k' =? k) eqn:E.
    + apply String.eqb_eq in E. tauto.
    + rewrite IH by tauto. reflexivity.
Qed.

Lemma fold_set_fresh {V : Type} (l acc : Dict.dict V) :
  NoDup (Dict.keys (acc ++ l)%list) ->
  fold_left (fun d kv => Dict.set (fst kv) (snd kv) d) l acc = (acc ++ l)%list.
Proof.
  revert acc. induction l as [|[k v] l IH]; intros acc H; cbn [fold_left].
  - now rewrite app_nil_r.
  - cbn [fst snd]. rewrite set_fresh.
    + rewrite IH; rewrite <- app_assoc; [reflexivity | exact H].
    + unfold Dict.keys in *. rewrite map_app in H. cbn [map fst] in H.
      apply NoDup_remove_2 in H. intros Hin. apply H.
      apply in_or_app. now left.
Qed.

Lemma of_pairs_distinct {V : Type} (l : Dict.dict V) :
  NoDup (Dict.keys l) -> Dict.of_pairs l = l.
Proof. intros H. unfold Dict.of_pairs. now rewrite fold_set_fresh. Qed.

Lemma loads_dumps_sessions (l : Limits) (sessions : Sessions) :
  NoDup (Dict.keys sessions) ->
  loads l (dumps (Some 2) (sessions_to_json sessions))
  = Decoded (sessions_to_json sessions).
Proof.
  intros Hkeys. destruct sessions as [|x xs]; [reflexivity|].
  unfold loads.
  change (depth_limit l) with (S (S (S (spare_depth l)))).
  set (text := dumps (Some 2) (sessions_to_json (x :: xs))).
  pose proof (sessions_text_nonempty x xs "") as Htext.
  rewrite append_nil_r in Htext. fold text in Htext.
  assert (Hsolid : skip_ws text = text) by (rewrite Htext; reflexivity).
  rewrite Hsolid.
  rewrite <- (append_nil_r text). unfold text.
  rewrite scan_sessions. cbn [skip_ws].
  rewrite of_pairs_distinct; [reflexivity|].
  unfold Dict.keys in *. now rewrite map_map.
Qed.

Lemma turn_of_to_json (t : Turn) : turn_of_json (turn_to_json t) = Some t.
Proof. now destruct t. Qed.

Lemma conversation_of_to_json (c : Conversation) :
  conversation_of_json (map turn_to_json c) = Some c.
Proof.
  induction c as [|t c IH]; [reflexivity|].
  cbn [map conversation_of_json]. now rewrite turn_of_to_json, IH.
Qed.

Lemma sessions_of_to_json (sessions : Sessions) :
  sessions_of_json (sessions_to_json sessions) = Some sessions.
Proof.
  unfold sessions_of_json, sessions_to_json.
  induction sessions as [|[k c] s IH]; [reflexivity|].
  cbn [map sessions_of_members fst snd].
  now rewrite conversation_of_to_json, IH.
Qed.

(** C7.  When the file can be written and read, saving a store and loading
    it back gives the document that was saved, and the store read from it
    is the store that was saved: every session key has the turn sequence
    it had, in the same order.  This holds whatever the limits of the
    interpreter that loads. *)
Theorem save_then_load (boot : Limits) (sessions : Sessions)
  (fs : FileSystem) :
  writable fs = true ->
  readable fs = true ->
  NoDup (Dict.keys sessions) ->
  let saved := save_conversations sessions fs in
  load_conversations boot saved = Some (sessions_to_json sessions)
  /\ exists w,
       startup boot saved = Some w
       /\ user_sessions w = sessions
       /\ forall user_id,
            Dict.get user_id (user_sessions w) = Dict.get user_id sessions.
Proof.
  intros Hw Hr Hkeys saved.
  assert (Hload : load_conversations boot saved
                  = Some (sessions_to_json sessions)).
  { unfold saved, save_conversations, load_conversations. rewrite Hw.
    cbn [conversations_file readable]. rewrite Hr.
    now rewrite loads_dumps_sessions. }
  split; [exact Hload|].
  exists {| user_sessions := sessions; disk := saved |}.
  split; [|split; [reflexivity | reflexivity]].
  unfold startup. now rewrite Hload, sessions_of_to_json.
Qed.

Lemma save_then_load_witness :
  let sessions :=
    [("web_user_1", [system_turn "intro"; user_turn ("Hi" ++ nl ++ "there")]);
     ("web_user_2", [])] in
  let saved := save_conversations sessions (disk empty_world) in
  load_conversations stock_limits saved = Some (sessions_to_json sessions)
  /\ exists w,
       startup stock_limits saved = Some w
       /\ user_sessions w = sessions
       /\ forall user_id,
            Dict.get user_id (user_sessions w) = Dict.get user_id sessions.
Proof.
  apply (save_then_load stock_limits
           [("web_user_1", [system_turn "intro"; user_turn ("Hi" ++ nl ++ "there")]);
            ("web_user_2", [])]
           (disk empty_world)).
  - reflexivity.
  - reflexivity.
  - repeat constructor; cbn; intuition discriminate.
Defined.

End RoundTrip.

(** * Further properties *)

(** ** What one request does to the store *)

Section Steps.
Import Py Json Identifier App Spec Shape.
Variable limits : Limits.
Variable OPENAI_API_KEY : option string.
Variable create : Completion -> string + string.

Lemma handle_start_interview (timestamp uuid4 k : string) (w : World) :
  fst (handle limits OPENAI_API_KEY create (StartInterview timestamp uuid4 k) w)
  = fst (start_interview timestamp uuid4 k w).
Proof. cbn [handle]. now destruct (start_interview timestamp uuid4 k w). Qed.

Lemma set_keys {V : Type} (k : string) (v : V) (d : Dict.dict V) :
  Dict.keys (Dict.set k v d)
  = if Dict.mem k d then Dict.keys d else (Dict.keys d ++ [k])%list.
Proof.
  unfold Dict.mem, Dict.keys.
  induction d as [|[k' v'] d IH]; cbn [Dict.set Dict.get map fst app].
  - reflexivity.
  - destruct (k' =? k) eqn:E; cbn [map fst].
    + apply String.eqb_eq in E. now subst.
    + rewrite IH. now destruct (Dict.get k d).
Qed.

Lemma append_keys (k : string) (t : Turn) (s : Sessions) :
  Dict.keys (append k t s) = Dict.keys s.
Proof.
  unfold append. destruct (Dict.get k s) as [c|] eqn:E; [|reflexivity].
  now rewrite set_keys, (get_some_mem _ _ _ E).
Qed.

Lemma in_keys_get {V : Type} (k : string) (d : Dict.dict V) :
  In k (Dict.keys d) -> exists v, Dict.get k d = Some v.
Proof.
  unfold Dict.keys. induction d as [|[k' v'] d IH]; cbn [map fst In Dict.get].
  - intros [].
  - intros [->|H].
    + rewrite String.eqb_refl. now exists v'.
    + destruct (k' =? k); [now exists v' | now apply IH].
Qed.

Lemma keys_after (call : Call) (w : World) :
  exists added,
    Dict.keys (user_sessions (fst (handle limits OPENAI_API_KEY create call w)))
    = (Dict.keys (user_sessions w) ++ added)%list
    /\ (added = []
        \/ exists k, added = [k] /\ Dict.get k (user_sessions w) = None).
Proof.
  destruct call as [|ts uuid k|k message|k|k|];
    try (exists []; split; [now rewrite app_nil_r | now left]).
  - rewrite handle_start_interview. unfold start_interview.
    cbn [fst user_sessions]. rewrite append_keys.
    destruct (Dict.get k (user_sessions w)) as [c|] eqn:E.
    + rewrite (get_some_mem _ _ _ E). cbn [negb].
      exists []. split; [now rewrite app_nil_r | now left].
    + rewrite (get_none_mem _ _ E). cbn [negb]. unfold generate_unique_id.
      rewrite !append_keys, set_keys, (get_none_mem _ _ E).
      exists [k]. split; [reflexivity | right; now exists k].
  - cbn [handle]. unfold chat. cbn [fst user_sessions]. rewrite !append_keys.
    destruct (Dict.get k (user_sessions w)) as [c|] eqn:E.
    + rewrite (get_some_mem _ _ _ E). cbn [negb].
      exists []. split; [now rewrite app_nil_r | now left].
    + rewrite (get_none_mem _ _ E). cbn [negb].
      rewrite set_keys, (get_none_mem _ _ E).
      exists [k]. split; [reflexivity | right; now exists k].
Qed.

Lemma keys_stay_distinct (call : Call) (w : World) :
  NoDup (Dict.keys (user_sessions w)) ->
  NoDup (Dict.keys (user_sessions (fst (handle limits OPENAI_API_KEY create call w)))).
Proof.
  intros H. destruct (keys_after call w) as [added [-> [->|[k [-> Hk]]]]].
  - now rewrite app_nil_r.
  - apply NoDup_app; [exact H | repeat constructor; intros [] |].
    intros x Hx [<-|[]]. apply in_keys_get in Hx. destruct Hx as [v Hv].
    congruence.
Qed.

Lemma handle_appends (call : Call) (w : World) (k : string)
  (before : Conversation) :
  Dict.get k (user_sessions w) = Some before ->
  exists suffix,
    Dict.get k (user_sessions (fst (handle limits OPENAI_API_KEY create call w)))
    = Some (before ++ suffix)%list
    /\ forallb non_system suffix = true
    /\ List.length suffix <= 2.
Proof.
  intros H.
  destruct call as [|ts uuid k0|k0 message|k0|k0|];
    try (exists []; rewrite app_nil_r; repeat split; [exact H | cbn; lia]).
  - rewrite handle_start_interview.
    destruct (string_dec k0 k) as [->|Hne].
    + rewrite start_interview_session, H. exists [welcome_turn].
      repeat split. cbn; lia.
    + rewrite start_interview_others by assumption.
      exists []. rewrite app_nil_r. repeat split; [exact H | cbn; lia].
  - cbn [handle]. destruct (string_dec k0 k) as [->|Hne].
    + rewrite (proj1 (chat_session limits OPENAI_API_KEY create k message w)).
      unfold resolved. rewrite H. eexists. repeat split. cbn; lia.
    + rewrite chat_others by assumption.
      exists []. rewrite app_nil_r. repeat split; [exact H | cbn; lia].
Qed.

(** X1.  Transcripts are append-only: whatever the request, a session that
    exists keeps its turns in place and in order; the request adds at most
    two turns behind them, and never a system turn. *)
Theorem transcripts_only_grow (call : Call) (w : World) (k : string)
  (before : Conversation) :
  Dict.get k (user_sessions w) = Some before ->
  exists suffix,
    Dict.get k (user_sessions (fst (handle limits OPENAI_API_KEY create call w)))
    = Some (before ++ suffix)%list
    /\ forallb non_system suffix = true
    /\ List.length suffix <= 2.
Proof. apply handle_appends. Qed.

(** X2.  The store only grows: a request keeps every session key, in the
    order of insertion, and adds at most one key, behind the others, which
    had no session before; keys that were distinct stay distinct. *)
Theorem keys_only_grow (call : Call) (w : World) :
  NoDup (Dict.keys (user_sessions w)) ->
  let after := fst (handle limits OPENAI_API_KEY create call w) in
  NoDup (Dict.keys (user_sessions after))
  /\ exists added,
       Dict.keys (user_sessions after)
       = (Dict.keys (user_sessions w) ++ added)%list
       /\ (added = []
           \/ exists k, added = [k] /\ Dict.get k (user_sessions w) = None).
Proof.
  intros H after. split; [now apply keys_stay_distinct | apply keys_after].
Qed.

(** X3.  A failure to persist is never seen by the caller: the response
    and the store in memory do not depend on the file system.  After a
    writing request the file holds the whole store when the write goes
    through; it is left as it was when it cannot be opened; and it holds
    only what was written of the new document, the old content being
    lost, when the write breaks off.  The other requests leave the file
    alone. *)
Theorem persistence_is_silent (call : Call) (w : World) (fs : FileSystem) :
  let here := handle limits OPENAI_API_KEY create call w in
  let there := handle limits OPENAI_API_KEY create call (on_disk fs w) in
  snd there = snd here
  /\ user_sessions (fst there) = user_sessions (fst here)
  /\ match call with
     | StartInterview _ _ _ | Chat _ _ =>
         let text :=
           dumps (Some 2) (sessions_to_json (user_sessions (fst here))) in
         conversations_file (disk (fst here))
         = if writable (disk w) then Some text
           else match torn_write (disk w) with
                | None => conversations_file (disk w)
                | Some n => Some (substring 0 n text)
                end
     | _ => disk (fst here) = disk w
     end.
Proof.
  intros here there. unfold here, there.
  destruct call as [|ts uuid k|k message|k|k|]; cbn [handle fst snd];
    try (repeat split; reflexivity).
  - unfold start_interview, save_conversations.
    cbn [fst snd user_sessions disk on_disk].
    repeat split.
    destruct (writable (disk w)); [reflexivity|].
    destruct (torn_write (disk w)); reflexivity.
  - unfold chat, save_conversations.
    cbn [fst snd user_sessions disk on_disk].
    repeat split.
    destruct (writable (disk w)); [reflexivity|].
    destruct (torn_write (disk w)); reflexivity.
Qed.

End Steps.

Section StepsRuns.
Import Py Json Identifier App Spec Shape.

Lemma transcripts_only_grow_witness :
  exists suffix,
    Dict.get "u"
      (user_sessions
         (fst (handle stock_limits None (fun _ => inl "hello") (Chat "u" "Hi")
                 {| user_sessions := [("u", [system_turn "intro"])];
                    disk := disk empty_world |})))
    = Some ([system_turn "intro"] ++ suffix)%list
    /\ forallb non_system suffix = true
    /\ List.length suffix <= 2.
Proof.
  exact (transcripts_only_grow stock_limits None (fun _ => inl "hello") (Chat "u" "Hi")
           {| user_sessions := [("u", [system_turn "intro"])];
              disk := disk empty_world |}
           "u" [system_turn "intro"] eq_refl).
Defined.

Lemma keys_only_grow_witness :
  let w := {| user_sessions := [("u", [system_turn "intro"])];
              disk := disk empty_world |} in
  let after := fst (handle stock_limits None (fun _ => inl "hello") (Chat "v" "Hi") w) in
  NoDup (Dict.keys (user_sessions after))
  /\ exists added,
       Dict.keys (user_sessions after)
       = (Dict.keys (user_sessions w) ++ added)%list
       /\ (added = []
           \/ exists k, added = [k] /\ Dict.get k (user_sessions w) = None).
Proof.
  apply (keys_only_grow stock_limits None (fun _ => inl "hello") (Chat "v" "Hi")
           {| user_sessions := [("u", [system_turn "intro"])];
              disk := disk empty_world |}).
  repeat constructor. intros [].
Defined.

(** A write that breaks off after five characters: the caller gets the
    answer it would get anyway, and the file holds the first five
    characters of the new document in place of what it held. *)
Lemma persistence_is_silent_witness :
  let w := {| user_sessions := [];
              disk := {| conversations_file := Some "old";
                         readable := true; writable := false;
                         torn_write := Some 5 |} |} in
  let here := handle stock_limits None (fun _ => inl "hello") (Chat "u" "Hi") w in
  snd (handle stock_limits None (fun _ => inl "hello") (Chat "u" "Hi")
         (on_disk (disk empty_world) w)) = snd here
  /\ conversations_file (disk (fst here))
     = Some ("{" ++ nl ++ "  " ++ dq).
Proof.
  pose proof (persistence_is_silent stock_limits None (fun _ => inl "hello")
                (Chat "u" "Hi")
                {| user_sessions := [];
                   disk := {| conversations_file := Some "old";
                              readable := true; writable := false;
                              torn_write := Some 5 |} |}
                (disk empty_world)) as H.
  destruct H as [H1 [_ H3]]. split; [exact H1 | exact H3].
Defined.

End StepsRuns.

(** ** What every sequence of requests keeps *)

Section Sequences.
Import Py Json Identifier App Spec Shape Trace.
Variable limits boot : Limits.
Variable OPENAI_API_KEY : option string.
Variable create : Completion -> string + string.

Lemma find_readable_id_app (a b : Conversation) :
  find_readable_id (a ++ b)%list
  = match find_readable_id a with
    | Some id => Some id
    | None => find_readable_id b
    end.
Proof.
  induction a as [|m a IH]; cbn [app find_readable_id]; [reflexivity|].
  now destruct ((role m =? "system") && startswith (content m) "READABLE_ID:").
Qed.

Lemma find_readable_id_non_system (b : Conversation) :
  forallb non_system b = true -> find_readable_id b = None.
Proof.
  induction b as [|m b IH]; cbn [forallb find_readable_id]; [reflexivity|].
  intros H. apply andb_prop in H. destruct H as [Hm Hb].
  unfold non_system in Hm. apply negb_true_iff in Hm. rewrite Hm.
  cbn [andb]. now apply IH.
Qed.

Lemma get_unique_id_of_session (k : string) (w : World) (c : Conversation) :
  Dict.get k (user_sessions w) = Some c ->
  get_unique_id k w
  = match find_readable_id c with
    | Some id =>
        if truthy id then jsonify (JObj [("unique_id", JStr id)])
        else jsonify_with (error_body "Unique ID not found") 404
    | None => jsonify_with (error_body "Unique ID not found") 404
    end.
Proof.
  intros H. unfold get_unique_id, lookup.
  now rewrite (get_some_mem _ _ _ H), H.
Qed.

Lemma get_unique_id_step (call : Call) (w : World) (k : string)
  (c : Conversation) :
  Dict.get k (user_sessions w) = Some c ->
  get_unique_id k (step limits OPENAI_API_KEY create w call) = get_unique_id k w.
Proof.
  intros H. unfold step.
  destruct (handle_appends limits OPENAI_API_KEY create call w k c H)
    as [suffix [Hafter [Hsuffix _]]].
  rewrite (get_unique_id_of_session _ _ _ Hafter),
    (get_unique_id_of_session _ _ _ H), find_readable_id_app,
    (find_readable_id_non_system _ Hsuffix).
  now destruct (find_readable_id c).
Qed.

Lemma get_unique_id_run (calls : list Call) :
  forall (w : World) (k : string) (c : Conversation),
    Dict.get k (user_sessions w) = Some c ->
    get_unique_id k (run limits OPENAI_API_KEY create calls w) = get_unique_id k w.
Proof.
  induction calls as [|call calls IH]; intros w k c H; [reflexivity|].
  destruct (handle_appends limits OPENAI_API_KEY create call w k c H)
    as [suffix [Hafter _]].
  change (run limits OPENAI_API_KEY create (call :: calls) w)
    with (run limits OPENAI_API_KEY create calls
            (fst (handle limits OPENAI_API_KEY create call w))).
  rewrite (IH _ _ _ Hafter). exact (get_unique_id_step call w k c H).
Qed.

(** X4.  The answer of [/get_unique_id] for a session is fixed once the
    session exists: no sequence of later requests, to any route and for
    any key, changes it. *)
Theorem get_unique_id_is_stable (calls : list Call) (w : World) (k : string)
  (c : Conversation) :
  Dict.get k (user_sessions w) = Some c ->
  get_unique_id k (run limits OPENAI_API_KEY create calls w) = get_unique_id k w.
Proof. intros H. now apply get_unique_id_run with (c := c). Qed.

Lemma all_chars_weaken (p q : ascii -> bool) (s : string) :
  (forall c, p c = true -> q c = true) ->
  all_chars p s = true -> all_chars q s = true.
Proof.
  intros Hpq. induction s as [|c s IH]; cbn [all_chars]; [reflexivity|].
  intros H. apply andb_prop in H. destruct H as [Hc Hs].
  now rewrite (Hpq _ Hc), IH.
Qed.

Lemma all_chars_append (p : ascii -> bool) (a b : string) :
  all_chars p a = true -> all_chars p b = true -> all_chars p (a ++ b) = true.
Proof.
  intros Ha Hb. induction a as [|c a IH]; cbn [String.append all_chars] in *.
  - exact Hb.
  - apply andb_prop in Ha. destruct Ha as [Hc Ha]. now rewrite Hc, IH.
Qed.

Lemma all_chars_substring (p : ascii -> bool) (s : string) :
  forall m n, all_chars p s = true -> all_chars p (substring m n s) = true.
Proof.
  induction s as [|c s IH]; intros m n H.
  - destruct m, n; reflexivity.
  - cbn [all_chars] in H. apply andb_prop in H. destruct H as [Hc Hs].
    destruct m as [|m]; [destruct n as [|n]|]; cbn [substring all_chars].
    + reflexivity.
    + now rewrite Hc, IH.
    + now apply IH.
Qed.

Lemma token_char_plain (c : ascii) :
  token_char c = true ->
  isspace c = false /\ (if ascii_dec "R" c then false else true) = true.
Proof.
  destruct c as [[] [] [] [] [] [] [] []]; intros H;
    first [discriminate H | split; reflexivity].
Qed.

Lemma digit_is_token_char (c : ascii) : is_digit c = true -> token_char c = true.
Proof. unfold token_char. now intros ->. Qed.

Lemma lstrip_solid (s : string) :
  all_chars (fun c => negb (isspace c)) s = true -> lstrip s = s.
Proof.
  destruct s as [|c s]; [reflexivity|]. cbn [all_chars lstrip].
  intros H. apply andb_prop in H. destruct H as [Hc _].
  apply negb_true_iff in Hc. now rewrite Hc.
Qed.

Lemma rstrip_solid (s : string) :
  all_chars (fun c => negb (isspace c)) s = true -> rstrip s = s.
Proof.
  induction s as [|c s IH]; [reflexivity|]. cbn [all_chars rstrip].
  intros H. apply andb_prop in H. destruct H as [Hc Hs].
  apply negb_true_iff in Hc. rewrite (IH Hs), Hc. now destruct s.
Qed.

Lemma contains_without_first (c0 : ascii) (old' s : string) :
  all_chars (fun c => if ascii_dec c0 c then false else true) s = true ->
  contains s (String c0 old') = false.
Proof.
  induction s as [|c s IH]; [reflexivity|]. cbn [all_chars contains String.prefix].
  intros H. apply andb_prop in H. destruct H as [Hc Hs].
  destruct (ascii_dec c0 c); [discriminate Hc|]. now apply IH.
Qed.

(** The readable identifier read back from the turn that carries it. *)
Lemma carried_readable_id (timestamp uuid4 : string) :
  all_chars is_digit timestamp = true ->
  all_chars token_char uuid4 = true ->
  let readable_id := fst (generate_unique_id timestamp uuid4) in
  strip (replace ("READABLE_ID: " ++ readable_id) "READABLE_ID:" "")
  = readable_id
  /\ truthy readable_id = true.
Proof.
  intros Ht Hu readable_id.
  assert (Hid : all_chars token_char readable_id = true).
  { unfold readable_id, generate_unique_id, slice_last, slice_to. cbn [fst].
    apply all_chars_append.
    - apply all_chars_substring.
      exact (all_chars_weaken _ _ _ digit_is_token_char Ht).
    - apply (all_chars_append _ "-"); [reflexivity|].
      now repeat apply all_chars_substring. }
  assert (Hsolid : all_chars (fun c => negb (isspace c)) readable_id = true).
  { apply (all_chars_weaken token_char); [|exact Hid].
    intros c Hc. destruct (token_char_plain c Hc) as [-> _]. reflexivity. }
  assert (HnoR : all_chars (fun c => if ascii_dec "R" c then false else true)
                   readable_id = true).
  { apply (all_chars_weaken token_char); [|exact Hid].
    intros c Hc. exact (proj2 (token_char_plain c Hc)). }
  split.
  - change ("READABLE_ID: " ++ readable_id)
      with (String "R" "EADABLE_ID:" ++ (" " ++ readable_id)).
    rewrite replace_prefix. cbn [String.append].
    rewrite replace_absent.
    + unfold strip. cbn [lstrip]. change (isspace " ") with true. cbn iota.
      now rewrite lstrip_solid, rstrip_solid.
    + apply contains_without_first. cbn [all_chars]. exact HnoR.
  - unfold readable_id, generate_unique_id. cbn [fst].
    now destruct (slice_last 6 timestamp).
Qed.

Lemma find_readable_id_seeded (timestamp uuid4 : string)
  (tail : Conversation) :
  find_readable_id (seeded timestamp uuid4 ++ tail)%list
  = Some (strip (replace ("READABLE_ID: "
                          ++ fst (generate_unique_id timestamp uuid4))
                   "READABLE_ID:" "")).
Proof. reflexivity. Qed.

(** X5.  A session that [/start_interview] creates answers
    [/get_unique_id] with the readable identifier generated for it, at
    once and after any later requests, when the clock gives digits and the
    random token is made of digits, the letters [a] to [f] and dashes. *)
Theorem started_session_keeps_its_identifier (calls : list Call)
  (timestamp uuid4 k : string) (w : World) :
  Dict.get k (user_sessions w) = None ->
  all_chars is_digit timestamp = true ->
  all_chars token_char uuid4 = true ->
  get_unique_id k (run limits OPENAI_API_KEY create calls (fst (start_interview timestamp uuid4 k w)))
  = jsonify (JObj [("unique_id",
                    JStr (fst (generate_unique_id timestamp uuid4)))]).
Proof.
  intros Hfresh Ht Hu.
  pose proof (start_interview_session timestamp uuid4 k w) as Hs.
  rewrite Hfresh in Hs.
  rewrite (get_unique_id_run calls _ _ _ Hs),
    (get_unique_id_of_session _ _ _ Hs), find_readable_id_seeded.
  destruct (carried_readable_id timestamp uuid4 Ht Hu) as [-> ->].
  reflexivity.
Qed.

(** X6.  A session that [/chat] creates never gets an identifier:
    [/get_unique_id] answers 404 for it, at once and after any later
    requests, a later [/start_interview] for the same key included. *)
Theorem chat_session_never_has_identifier (calls : list Call)
  (k message : string) (w : World) :
  Dict.get k (user_sessions w) = None ->
  get_unique_id k
    (run limits OPENAI_API_KEY create calls (fst (chat limits OPENAI_API_KEY create k message w)))
  = jsonify_with (error_body "Unique ID not found") 404.
Proof.
  intros Hfresh.
  pose proof (proj1 (chat_session limits OPENAI_API_KEY create k message w)) as Hs.
  cbv zeta in Hs. unfold resolved in Hs. rewrite Hfresh in Hs.
  rewrite (get_unique_id_run calls _ _ _ Hs),
    (get_unique_id_of_session _ _ _ Hs).
  reflexivity.
Qed.

Lemma well_seeded_step (call : Call) (w : World) :
  (forall k c, Dict.get k (user_sessions w) = Some c -> well_seeded c) ->
  forall k c,
    Dict.get k (user_sessions (step limits OPENAI_API_KEY create w call)) = Some c -> well_seeded c.
Proof.
  intros Hw k c Hc. unfold step in Hc.
  destruct (Dict.get k (user_sessions w)) as [before|] eqn:E.
  - destruct (handle_appends limits OPENAI_API_KEY create call w k before E)
      as [suffix [Hafter [Hsuffix _]]].
    rewrite Hafter in Hc. injection Hc as <-.
    destruct (Hw k before E) as [tail [Htail Hshape]].
    exists (tail ++ suffix)%list. split.
    + now rewrite forallb_app, Htail, Hsuffix.
    + destruct Hshape as [->|[ts [uuid ->]]].
      * now left.
      * right. exists ts, uuid. now rewrite app_assoc.
  - destruct call as [|ts uuid k0|k0 message|k0|k0|];
      try (cbn [handle fst] in Hc; congruence).
    + rewrite handle_start_interview in Hc.
      destruct (string_dec k0 k) as [->|Hne].
      * rewrite start_interview_session, E in Hc. injection Hc as <-.
        exists [welcome_turn]. split; [reflexivity|].
        right. now exists ts, uuid.
      * rewrite start_interview_others in Hc by assumption. congruence.
    + cbn [handle] in Hc. destruct (string_dec k0 k) as [->|Hne].
      * rewrite (proj1 (chat_session limits OPENAI_API_KEY create k message w)) in Hc.
        unfold resolved in Hc. rewrite E in Hc. injection Hc as <-.
        eexists. split; [|left; reflexivity]. reflexivity.
      * rewrite chat_others in Hc by assumption. congruence.
Qed.

(** X7.  Every transcript starts with the instructions turn, and its only
    other system turns are the two identifier turns that
    [/start_interview] writes right behind it: when this holds of every
    session of a store, it holds of every session after any sequence of
    requests. *)
Theorem transcripts_stay_well_seeded (calls : list Call) (w : World) :
  (forall k c, Dict.get k (user_sessions w) = Some c -> well_seeded c) ->
  forall k c,
    Dict.get k (user_sessions (run limits OPENAI_API_KEY create calls w)) = Some c -> well_seeded c.
Proof.
  revert w. induction calls as [|call calls IH]; intros w Hw; [exact Hw|].
  change (run limits OPENAI_API_KEY create (call :: calls) w)
    with (run limits OPENAI_API_KEY create calls
            (fst (handle limits OPENAI_API_KEY create call w))).
  apply IH. exact (well_seeded_step call w Hw).
Qed.

Lemma startup_after_save (sessions : Sessions) (fs : FileSystem) :
  writable fs = true ->
  readable fs = true ->
  NoDup (Dict.keys sessions) ->
  startup boot (save_conversations sessions fs)
  = Some {| user_sessions := sessions;
            disk := save_conversations sessions fs |}.
Proof.
  intros Hw Hr Hkeys. unfold startup, load_conversations, save_conversations.
  rewrite Hw. cbn [conversations_file readable]. rewrite Hr.
  now rewrite loads_dumps_sessions, sessions_of_to_json.
Qed.

Lemma flags_step (call : Call) (w : World) :
  writable (disk (step limits OPENAI_API_KEY create w call)) = writable (disk w)
  /\ readable (disk (step limits OPENAI_API_KEY create w call)) = readable (disk w).
Proof.
  unfold step.
  destruct call as [|ts uuid k|k message|k|k|];
    try (split; reflexivity).
  - rewrite handle_start_interview. unfold start_interview, save_conversations.
    cbn [fst disk]. destruct (writable (disk w)) eqn:E; [now rewrite ?E|].
    destruct (torn_write (disk w)); now rewrite ?E.
  - cbn [handle]. unfold chat, save_conversations.
    cbn [fst disk]. destruct (writable (disk w)) eqn:E; [now rewrite ?E|].
    destruct (torn_write (disk w)); now rewrite ?E.
Qed.

Lemma recoverable_step (call : Call) (w : World) :
  writable (disk w) = true ->
  readable (disk w) = true ->
  NoDup (Dict.keys (user_sessions w)) ->
  recoverable boot w ->
  recoverable boot (step limits OPENAI_API_KEY create w call).
Proof.
  intros Hw Hr Hkeys Hrec. unfold step.
  pose proof (keys_stay_distinct limits OPENAI_API_KEY create call w Hkeys) as Hafter.
  destruct call as [|ts uuid k|k message|k|k|]; try exact Hrec.
  - rewrite handle_start_interview in *. unfold recoverable.
    unfold start_interview in *. cbn [fst disk user_sessions] in *.
    rewrite startup_after_save by assumption. eexists. split; reflexivity.
  - cbn [handle] in *. unfold recoverable.
    unfold chat in *. cbn [fst disk user_sessions] in *.
    rewrite startup_after_save by assumption. eexists. split; reflexivity.
Qed.

(** X8.  The file follows the store.  With a file that can be written and
    read and a store that a restart would recover, a restart after any
    sequence of requests recovers exactly the store then in memory. *)
Theorem restart_recovers_the_store (calls : list Call) (w : World) :
  writable (disk w) = true ->
  readable (disk w) = true ->
  NoDup (Dict.keys (user_sessions w)) ->
  recoverable boot w ->
  recoverable boot (run limits OPENAI_API_KEY create calls w).
Proof.
  revert w. induction calls as [|call calls IH]; intros w Hw Hr Hkeys Hrec;
    [exact Hrec|].
  change (run limits OPENAI_API_KEY create (call :: calls) w)
    with (run limits OPENAI_API_KEY create calls
            (fst (handle limits OPENAI_API_KEY create call w))).
  destruct (flags_step call w) as [Fw Fr]. unfold step in Fw, Fr.
  apply IH.
  - now rewrite Fw.
  - now rewrite Fr.
  - now apply keys_stay_distinct.
  - exact (recoverable_step call w Hw Hr Hkeys Hrec).
Qed.

End Sequences.

Section SequencesRuns.
Import Py Json Identifier App Spec Shape Trace.

Lemma get_unique_id_is_stable_witness :
  let w := {| user_sessions :=
                [("u", [system_turn "intro";
                        system_turn "READABLE_ID: 030405-0123ab"])];
              disk := disk empty_world |} in
  get_unique_id "u"
    (run stock_limits None (fun _ => inl "hello")
       [Chat "u" "Hi";
        StartInterview "20240102030406" "9876fedc-ffff-4fff-8fff-ffffffffffff" "u";
        Chat "v" "Hi"] w)
  = get_unique_id "u" w.
Proof.
  exact (get_unique_id_is_stable stock_limits None (fun _ => inl "hello")
           [Chat "u" "Hi";
            StartInterview "20240102030406"
              "9876fedc-ffff-4fff-8fff-ffffffffffff" "u";
            Chat "v" "Hi"]
           {| user_sessions :=
                [("u", [system_turn "intro";
                        system_turn "READABLE_ID: 030405-0123ab"])];
              disk := disk empty_world |}
           "u" _ eq_refl).
Defined.

Lemma started_session_keeps_its_identifier_witness :
  get_unique_id "u"
    (run stock_limits None (fun _ => inl "hello") [Chat "u" "Hi"; Chat "v" "Hi"]
       (fst (start_interview "20240102030405"
               "0123abcd-ffff-4fff-8fff-ffffffffffff" "u" empty_world)))
  = jsonify (JObj [("unique_id", JStr "030405-0123ab")]).
Proof.
  exact (started_session_keeps_its_identifier stock_limits None (fun _ => inl "hello")
           [Chat "u" "Hi"; Chat "v" "Hi"]
           "20240102030405" "0123abcd-ffff-4fff-8fff-ffffffffffff" "u"
           empty_world eq_refl eq_refl eq_refl).
Defined.

Lemma chat_session_never_has_identifier_witness :
  get_unique_id "u"
    (run stock_limits None (fun _ => inl "hello")
       [StartInterview "20240102030405"
          "0123abcd-ffff-4fff-8fff-ffffffffffff" "u"]
       (fst (chat stock_limits None (fun _ => inl "hello") "u" "Hi" empty_world)))
  = jsonify_with (error_body "Unique ID not found") 404.
Proof.
  exact (chat_session_never_has_identifier stock_limits None (fun _ => inl "hello")
           [StartInterview "20240102030405"
              "0123abcd-ffff-4fff-8fff-ffffffffffff" "u"]
           "u" "Hi" empty_world eq_refl).
Defined.

Lemma transcripts_stay_well_seeded_witness :
  well_seeded
    (lookup "u"
       (user_sessions
          (run stock_limits None (fun _ => inl "hello")
             [StartInterview "20240102030405"
                "0123abcd-ffff-4fff-8fff-ffffffffffff" "u";
              Chat "u" "Hi"]
             empty_world))).
Proof.
  apply (transcripts_stay_well_seeded stock_limits None (fun _ => inl "hello")
           [StartInterview "20240102030405"
              "0123abcd-ffff-4fff-8fff-ffffffffffff" "u";
            Chat "u" "Hi"]
           empty_world) with (k := "u").
  - intros k c H. discriminate H.
  - reflexivity.
Defined.

Lemma restart_recovers_the_store_witness :
  recoverable stock_limits
    (run stock_limits None (fun _ => inl "hello")
       [StartInterview "20240102030405"
          "0123abcd-ffff-4fff-8fff-ffffffffffff" "u";
        Chat "u" "Hi"; GetUniqueId "u"]
       empty_world).
Proof.
  apply (restart_recovers_the_store stock_limits stock_limits None
           (fun _ => inl "hello")).
  - reflexivity.
  - reflexivity.
  - constructor.
  - exists empty_world. split; reflexivity.
Defined.

End SequencesRuns.

(** ** Failures of the completion API, and the text that is scored *)

Section Replies.
Import Py Json Identifier App Spec Shape.
Variable limits : Limits.
Variable OPENAI_API_KEY : option string.
Variable create : Completion -> string + string.

Lemma loads_error_text (l : Limits) (detail : string) :
  loads l ("Error: " ++ detail) = JSONDecodeError.
Proof. reflexivity. Qed.

(** X9.  A failure of the completion call is no failure of [/chat].  When
    no credential is configured, or when the call raises, the route answers
    with status 200 and the fallback structure whose [response] is the
    error text, [Error: ] followed by the detail, and that text is
    recorded in the transcript as the assistant turn. *)
Theorem chat_reports_api_failure (k message : string) (w : World) :
  let before := resolved k (user_sessions w) in
  let raw :=
    chat_with_gpt OPENAI_API_KEY create (before ++ [user_turn message])%list in
  let after := chat limits OPENAI_API_KEY create k message w in
  is_truthy OPENAI_API_KEY = false
  \/ (exists e,
        create (chat_request (before ++ [user_turn message])%list) = inr e) ->
  (exists detail,
     raw = "Error: " ++ detail
     /\ forall e,
          is_truthy OPENAI_API_KEY = true ->
          create (chat_request (before ++ [user_turn message])%list) = inr e ->
          detail = e)
  /\ snd after = Some {| status := 200; body := fallback_reply raw |}
  /\ Dict.get k (user_sessions (fst after))
     = Some (before ++ [user_turn message; assistant_turn raw])%list.
Proof.
  intros before raw after Hfail.
  assert (Hraw : exists detail,
             raw = "Error: " ++ detail
             /\ forall e,
                  is_truthy OPENAI_API_KEY = true ->
                  create (chat_request (before ++ [user_turn message])%list)
                  = inr e ->
                  detail = e).
  { unfold raw, chat_with_gpt. fold (chat_request (before ++ [user_turn message])%list).
    destruct (is_truthy OPENAI_API_KEY) eqn:Ekey; cbn [negb].
    - destruct Hfail as [Hf|[e He]]; [discriminate Hf|].
      rewrite He. exists e. split; [reflexivity|]. intros e' _ He'.
      congruence.
    - eexists. split; [reflexivity|]. intros e' He'. discriminate He'. }
  split; [exact Hraw|].
  destruct Hraw as [detail [Hdetail _]].
  destruct (chat_session limits OPENAI_API_KEY create k message w) as [Hs Hr].
  fold before in Hs, Hr. fold raw in Hs, Hr.
  split; [|exact Hs].
  unfold after. rewrite Hr. unfold chat_response.
  rewrite Hdetail, loads_error_text. reflexivity.
Qed.

Lemma conversation_text_app (a b : Conversation) :
  conversation_text (a ++ b)%list = conversation_text a ++ conversation_text b.
Proof.
  unfold conversation_text. rewrite fold_left_app.
  now rewrite (conversation_text_fold b (fold_left render_turn a "")),
    (conversation_text_fold b "").
Qed.

(** X10.  Each round of [/chat] lengthens the text that [/score_interview]
    submits by exactly two paragraphs: the candidate's message and the
    interviewer's reply, in that order; the text submitted before stays
    its prefix. *)
Theorem scored_text_follows_chat (k message : string) (w : World) :
  let before := resolved k (user_sessions w) in
  let raw :=
    chat_with_gpt OPENAI_API_KEY create (before ++ [user_turn message])%list in
  let after := fst (chat limits OPENAI_API_KEY create k message w) in
  let text :=
    conversation_text before
    ++ "Candidate: " ++ message ++ nl ++ nl
    ++ "Interviewer: " ++ raw ++ nl ++ nl in
  conversation_text (lookup k (user_sessions after)) = text
  /\ score_interview_endpoint OPENAI_API_KEY create k after
     = jsonify (JObj [("scoring_result",
                       JStr (score_interview OPENAI_API_KEY create text))]).
Proof.
  intros before raw after text.
  pose proof (proj1 (chat_session limits OPENAI_API_KEY create k message w)) as Hs.
  fold before in Hs. fold raw in Hs. fold after in Hs.
  assert (Htext : conversation_text (lookup k (user_sessions after)) = text).
  { unfold lookup. rewrite Hs, conversation_text_app. unfold text.
    f_equal. cbn. now rewrite !append_assoc. }
  split; [exact Htext|].
  unfold score_interview_endpoint.
  rewrite (get_some_mem _ _ _ Hs). cbn [negb]. now rewrite Htext.
Qed.

End Replies.

Section RepliesRuns.
Import Py Json Identifier App Spec Shape.

Lemma chat_reports_api_failure_witness :
  let after :=
    chat stock_limits (Some "sk-test") (fun _ => inr "Connection error.") "u" "Hi"
      empty_world in
  snd after
  = Some {| status := 200;
            body := fallback_reply "Error: Connection error." |}
  /\ Dict.get "u" (user_sessions (fst after))
     = Some [system_turn SYSTEM_PROMPT; user_turn "Hi";
             assistant_turn "Error: Connection error."].
Proof.
  exact (proj2 (chat_reports_api_failure stock_limits (Some "sk-test")
                  (fun _ => inr "Connection error.") "u" "Hi" empty_world
                  (or_intror (ex_intro _ "Connection error." eq_refl)))).
Defined.

End RepliesRuns.

(** ** When two identifiers collide *)

Section Collisions.
Import Py Json Identifier App Spec Shape.

Lemma contains_dash_substring (s : string) :
  forall m n, contains s "-" = false -> contains (substring m n s) "-" = false.
Proof.
  induction s as [|c s IH]; intros m n H.
  - destruct m, n; reflexivity.
  - cbn [contains String.prefix] in H. apply orb_false_elim in H.
    destruct H as [Hc Hs].
    destruct (ascii_dec "-" c) as [|Hne];
      [rewrite prefix_nil in Hc; discriminate Hc|].
    destruct m as [|m]; [destruct n as [|n]|]; cbn [substring].
    + reflexivity.
    + cbn [contains String.prefix].
      destruct (ascii_dec "-" c); [contradiction|]. now apply IH.
    + now apply IH.
Qed.

Lemma slice_to_twice (a b : nat) (s : string) :
  a <= b -> slice_to a (slice_to b s) = slice_to a s.
Proof.
  unfold slice_to. revert b s. induction a as [|a IH]; intros b s Hab.
  - now destruct (substring 0 b s), s.
  - destruct b as [|b]; [lia|]. destruct s as [|c s]; [reflexivity|].
    cbn [substring]. f_equal. apply IH. lia.
Qed.

Lemma join_injective (t1 r1 t2 r2 : string) :
  contains t1 "-" = false ->
  contains t2 "-" = false ->
  t1 ++ "-" ++ r1 = t2 ++ "-" ++ r2 ->
  t1 = t2 /\ r1 = r2.
Proof.
  intros H1 H2 H. apply (f_equal components) in H.
  rewrite !components_join in H by assumption. now injection H.
Qed.

(** X11.  For timestamps that hold no dash, two draws give the same
    internal identifier exactly when the timestamps are equal and the
    random tokens agree on their first eight characters, and the same
    readable identifier exactly when the timestamps agree on their last
    six characters and the tokens on their first six. *)
Theorem identifiers_collide_exactly_when (ts1 uuid1 ts2 uuid2 : string) :
  contains ts1 "-" = false ->
  contains ts2 "-" = false ->
  (snd (generate_unique_id ts1 uuid1) = snd (generate_unique_id ts2 uuid2)
   <-> ts1 = ts2 /\ slice_to 8 uuid1 = slice_to 8 uuid2)
  /\ (fst (generate_unique_id ts1 uuid1) = fst (generate_unique_id ts2 uuid2)
      <-> slice_last 6 ts1 = slice_last 6 ts2
          /\ slice_to 6 uuid1 = slice_to 6 uuid2).
Proof.
  intros H1 H2. unfold generate_unique_id. cbn [fst snd].
  rewrite !(slice_to_twice 6 8) by lia. split; split.
  - intros H. now apply join_injective.
  - intros [-> ->]. reflexivity.
  - intros H. apply join_injective in H; [exact H | |];
      now apply contains_dash_substring.
  - intros [-> ->]. reflexivity.
Qed.

Lemma identifiers_collide_exactly_when_witness :
  fst (generate_unique_id "20240102030405" "0123abcd-ffff-4fff-8fff-ffffffffffff")
  = fst (generate_unique_id "20240103030405" "0123abff-ffff-4fff-8fff-ffffffffffff")
  /\ snd (generate_unique_id "20240102030405" "0123abcd-ffff-4fff-8fff-ffffffffffff")
     <> snd (generate_unique_id "20240103030405" "0123abff-ffff-4fff-8fff-ffffffffffff").
Proof.
  destruct (identifiers_collide_exactly_when
              "20240102030405" "0123abcd-ffff-4fff-8fff-ffffffffffff"
              "20240103030405" "0123abff-ffff-4fff-8fff-ffffffffffff"
              eq_refl eq_refl) as [Hu Hr].
  split.
  - apply (proj2 Hr). split; reflexivity.
  - intros H. apply (proj1 Hu) in H. destruct H as [H _]. discriminate H.
Defined.

End Collisions.

(** ** More on the exported mapping *)

Section ExportedRows.
Import Py Json Identifier App Spec Shape.

Lemma set_keeps_distinct {V : Type} (k : string) (v : V) (d : Dict.dict V) :
  NoDup (Dict.keys d) -> NoDup (Dict.keys (Dict.set k v d)).
Proof.
  intros H. rewrite set_keys. destruct (Dict.mem k d) eqn:E; [exact H|].
  apply NoDup_app; [exact H | repeat constructor; intros [] |].
  intros x Hx [<-|[]]. apply in_keys_get in Hx. destruct Hx as [v' Hv].
  apply mem_false_get in E. congruence.
Qed.

Lemma export_fold_shape (sessions : Sessions) (acc : Dict.dict json) :
  NoDup (Dict.keys acc) ->
  NoDup (Dict.keys (fold_left export_session sessions acc))
  /\ List.length (fold_left export_session sessions acc)
     <= List.length acc + List.length sessions.
Proof.
  revert acc. induction sessions as [|[k c] rest IH]; intros acc H.
  - cbn. split; [exact H | lia].
  - cbn [fold_left List.length]. rewrite export_session_exported.
    destruct (exported k c) as [[rid row]|].
    + destruct (IH (Dict.set rid row acc) (set_keeps_distinct _ _ _ H))
        as [Hd Hl].
      split; [exact Hd|].
      assert (List.length (Dict.set rid row acc) <= S (List.length acc)).
      { rewrite <- !(length_map fst). fold (Dict.keys (Dict.set rid row acc)).
        fold (Dict.keys acc). rewrite set_keys.
        destruct (Dict.mem rid acc); [lia|]. rewrite length_app. cbn. lia. }
      lia.
    + destruct (IH acc H) as [Hd Hl]. split; [exact Hd | lia].
Qed.

(** X13.  The exported mapping has one row at most under each readable
    identifier and never more rows than the store has sessions. *)
Theorem export_rows_are_distinct (w : World) :
  NoDup (Dict.keys (export_table (user_sessions w)))
  /\ List.length (export_table (user_sessions w))
     <= List.length (user_sessions w)
  /\ export_mapping w = jsonify (JObj (export_table (user_sessions w))).
Proof.
  destruct (export_fold_shape (user_sessions w) []) as [Hd Hl];
    [constructor|].
  split; [exact Hd|]. split; [exact Hl | reflexivity].
Qed.

Lemma set_last {V : Type} (k : string) (v v0 : V) (d : Dict.dict V) :
  Dict.get k d = None ->
  Dict.set k v (d ++ [(k, v0)])%list = (d ++ [(k, v)])%list.
Proof.
  induction d as [|[k' v'] d IH]; cbn [app Dict.set Dict.get]; intros H.
  - now rewrite String.eqb_refl.
  - destruct (k' =? k); [discriminate H|]. now rewrite IH.
Qed.

Lemma set_new {V : Type} (k : string) (v : V) (d : Dict.dict V) :
  Dict.get k d = None -> Dict.set k v d = (d ++ [(k, v)])%list.
Proof.
  induction d as [|[k' v'] d IH]; cbn [app Dict.set Dict.get]; intros H.
  - reflexivity.
  - destruct (k' =? k); [discriminate H|]. now rewrite IH.
Qed.

Lemma get_last {V : Type} (k : string) (v : V) (d : Dict.dict V) :
  Dict.get k d = None -> Dict.get k (d ++ [(k, v)])%list = Some v.
Proof.
  induction d as [|[k' v'] d IH]; cbn [app Dict.get]; intros H.
  - now rewrite String.eqb_refl.
  - destruct (k' =? k); [discriminate H | now apply IH].
Qed.

Lemma append_last (k : string) (t : Turn) (c : Conversation) (d : Sessions) :
  Dict.get k d = None ->
  append k t (d ++ [(k, c)])%list = (d ++ [(k, (c ++ [t])%list)])%list.
Proof.
  intros H. unfold append. rewrite (get_last _ _ _ H). now apply set_last.
Qed.

(** The store after [/start_interview] for a key without a session. *)
Lemma start_interview_new (timestamp uuid4 k : string) (w : World) :
  Dict.get k (user_sessions w) = None ->
  user_sessions (fst (start_interview timestamp uuid4 k w))
  = (user_sessions w ++ [(k, (seeded timestamp uuid4 ++ [welcome_turn])%list)])%list.
Proof.
  intros H. unfold start_interview. cbn [fst user_sessions].
  rewrite (get_none_mem _ _ H). cbn [negb]. unfold generate_unique_id.
  rewrite (set_new _ _ _ H), !append_last by assumption. reflexivity.
Qed.

Lemma carried_unique_id (timestamp uuid4 : string) :
  all_chars is_digit timestamp = true ->
  all_chars token_char uuid4 = true ->
  let unique_id := snd (generate_unique_id timestamp uuid4) in
  strip (replace ("UNIQUE_ID: " ++ unique_id) "UNIQUE_ID:" "") = unique_id
  /\ truthy unique_id = true.
Proof.
  intros Ht Hu unique_id.
  assert (Hid : all_chars token_char unique_id = true).
  { unfold unique_id, generate_unique_id, slice_to. cbn [snd].
    apply all_chars_append.
    - exact (all_chars_weaken _ _ _ digit_is_token_char Ht).
    - apply (all_chars_append _ "-"); [reflexivity|].
      now apply all_chars_substring. }
  assert (Hsolid : all_chars (fun c => negb (isspace c)) unique_id = true).
  { apply (all_chars_weaken token_char); [|exact Hid].
    intros c Hc. destruct (token_char_plain c Hc) as [-> _]. reflexivity. }
  assert (HnoU : all_chars (fun c => if ascii_dec "U" c then false else true)
                   unique_id = true).
  { apply (all_chars_weaken token_char); [|exact Hid].
    intros c. destruct c as [[] [] [] [] [] [] [] []]; intros H;
      first [discriminate H | reflexivity]. }
  split.
  - change ("UNIQUE_ID: " ++ unique_id)
      with (String "U" "NIQUE_ID:" ++ (" " ++ unique_id)).
    rewrite replace_prefix. cbn [String.append].
    rewrite replace_absent.
    + unfold strip. cbn [lstrip]. change (isspace " ") with true. cbn iota.
      now rewrite lstrip_solid, rstrip_solid.
    + apply contains_without_first. cbn [all_chars]. exact HnoU.
  - unfold unique_id, generate_unique_id. cbn [snd].
    now destruct timestamp.
Qed.

(** X14.  Right after [/start_interview] creates a session, the exported
    mapping has, under the readable identifier generated for it, the row
    of that session: the internal identifier generated with it, the
    session key, and a message count of one (the welcome turn); this for a
    timestamp of digits and a random token of digits, letters [a] to [f]
    and dashes. *)
Theorem started_session_is_exported (timestamp uuid4 k : string) (w : World) :
  Dict.get k (user_sessions w) = None ->
  all_chars is_digit timestamp = true ->
  all_chars token_char uuid4 = true ->
  Dict.get (fst (generate_unique_id timestamp uuid4))
    (export_table (user_sessions (fst (start_interview timestamp uuid4 k w))))
  = Some (JObj [("unique_id", JStr (snd (generate_unique_id timestamp uuid4)));
                ("user_id", JStr k);
                ("message_count", JInt 1)]).
Proof.
  intros Hfresh Ht Hu.
  rewrite (start_interview_new _ _ _ _ Hfresh).
  unfold export_table. rewrite fold_left_app. cbn [fold_left].
  rewrite export_session_exported.
  assert (He : exported k (seeded timestamp uuid4 ++ [welcome_turn])%list
               = Some (fst (generate_unique_id timestamp uuid4),
                       JObj [("unique_id",
                              JStr (snd (generate_unique_id timestamp uuid4)));
                             ("user_id", JStr k);
                             ("message_count", JInt 1)])).
  { unfold exported.
    change (last_identifier "UNIQUE_ID:" (seeded timestamp uuid4 ++ [welcome_turn])%list)
      with (Some (strip (replace ("UNIQUE_ID: "
                                  ++ snd (generate_unique_id timestamp uuid4))
                           "UNIQUE_ID:" ""))).
    change (last_identifier "READABLE_ID:" (seeded timestamp uuid4 ++ [welcome_turn])%list)
      with (Some (strip (replace ("READABLE_ID: "
                                  ++ fst (generate_unique_id timestamp uuid4))
                           "READABLE_ID:" ""))).
    destruct (carried_unique_id timestamp uuid4 Ht Hu) as [-> ->].
    destruct (carried_readable_id timestamp uuid4 Ht Hu) as [-> ->].
    reflexivity. }
  rewrite He. apply get_set_same.
Qed.

Lemma started_session_is_exported_witness :
  Dict.get "030405-0123ab"
    (export_table
       (user_sessions
          (fst (start_interview "20240102030405"
                  "0123abcd-ffff-4fff-8fff-ffffffffffff" "u" empty_world))))
  = Some (JObj [("unique_id", JStr "20240102030405-0123abcd");
                ("user_id", JStr "u");
                ("message_count", JInt 1)]).
Proof.
  exact (started_session_is_exported "20240102030405"
           "0123abcd-ffff-4fff-8fff-ffffffffffff" "u" empty_world
           eq_refl eq_refl eq_refl).
Defined.

End ExportedRows.

(** ** A file that cannot be used *)

Section BrokenFile.
Import Py Json Identifier App Spec Shape.

(** X12.  A conversations file that is absent, cannot be opened or does
    not decode, whichever exception [json.load] raises on it, starts the
    process with an empty store, without an error; the first
    [/start_interview] then replaces whatever the file held by the new
    store alone, when the file can be written. *)
Theorem unusable_file_starts_empty (boot : Limits) (fs : FileSystem)
  (timestamp uuid4 k : string) :
  conversations_file fs = None
  \/ readable fs = false
  \/ (exists text,
        conversations_file fs = Some text
        /\ (loads boot text = JSONDecodeError
            \/ loads boot text = RecursionError
            \/ loads boot text = ValueError)) ->
  let w0 := {| user_sessions := []; disk := fs |} in
  load_conversations boot fs = Some (JObj [])
  /\ startup boot fs = Some w0
  /\ (writable fs = true ->
      conversations_file (disk (fst (start_interview timestamp uuid4 k w0)))
      = Some (dumps (Some 2)
                (sessions_to_json
                   [(k, (seeded timestamp uuid4 ++ [welcome_turn])%list)]))).
Proof.
  intros H w0.
  assert (Hload : load_conversations boot fs = Some (JObj [])).
  { unfold load_conversations.
    destruct H as [->|[Hr|[text [-> Ht]]]]; [reflexivity | |].
    - rewrite Hr. now destruct (conversations_file fs).
    - destruct (readable fs); [|reflexivity].
      destruct Ht as [->|[->| ->]]; reflexivity. }
  split; [exact Hload|]. split.
  - unfold startup. now rewrite Hload.
  - intros Hw.
    change (disk (fst (start_interview timestamp uuid4 k w0)))
      with (save_conversations
              (user_sessions (fst (start_interview timestamp uuid4 k w0)))
              fs).
    rewrite (start_interview_new timestamp uuid4 k w0 eq_refl).
    unfold save_conversations. rewrite Hw. reflexivity.
Qed.

Lemma unusable_file_starts_empty_witness :
  let fs := {| conversations_file := Some "{truncated";
               readable := true; writable := true; torn_write := None |} in
  startup stock_limits fs = Some {| user_sessions := []; disk := fs |}.
Proof.
  exact (proj1 (proj2 (unusable_file_starts_empty stock_limits
           {| conversations_file := Some "{truncated";
              readable := true; writable := true; torn_write := None |}
           "20240102030405" "0123abcd-ffff-4fff-8fff-ffffffffffff" "u"
           (or_intror (or_intror
              (ex_intro _ "{truncated" (conj eq_refl (or_introl eq_refl)))))))).
Defined.

End BrokenFile.


(** ** Start-up *)

Section StartUp.
Import Py Json Identifier App Spec Shape Config.
Variable int : string -> option Z.
Hypothesis int_of_nothing : int "" = None.

Lemma port_text_is_truthy (text : string) (n : Z) :
  int text = Some n -> is_truthy (Some text) = true.
Proof. intros Hn. destruct text; [congruence | reflexivity]. Qed.

(** X15.  How [load_config] ends.  It exits, with status 1, exactly when
    no usable credential is set and [PORT] is not set; it raises
    [ValueError] exactly when [PORT] is set to a text that [int] refuses, an
    empty one included, whether or not a credential is set; otherwise it
    returns the settings, with the credential as the environment has it and
    the port of [PORT], or 5003 without it. *)
Theorem load_config_outcomes (environ : Dict.dict string) :
  (forall status,
     load_config int environ = Exited status <->
     status = 1
     /\ is_truthy (Dict.get "OPENAI_API_KEY" environ) = false
     /\ Dict.get "PORT" environ = None)
  /\ (load_config int environ = ValueError <->
      exists text, Dict.get "PORT" environ = Some text /\ int text = None)
  /\ (forall config,
        load_config int environ = Loaded config ->
        openai_api_key config = Dict.get "OPENAI_API_KEY" environ
        /\ match Dict.get "PORT" environ with
           | Some text => int text = Some (port config)
           | None =>
               port config = 5003%Z
               /\ is_truthy (Dict.get "OPENAI_API_KEY" environ) = true
           end).
Proof.
  unfold load_config. cbn [openai_api_key].
  destruct (Dict.get "PORT" environ) as [text|] eqn:Hp.
  - destruct (int text) as [n|] eqn:Hn.
    + rewrite (port_text_is_truthy text n Hn).
      destruct (is_truthy (Dict.get "OPENAI_API_KEY" environ)); cbn [negb];
        (split; [|split]).
      all: try (intros status; split; [discriminate | intros [_ [_ H]]; discriminate H]).
      all: try (split; [discriminate | intros [t [Ht Hi]]; congruence]).
      all: intros config H; injection H as <-; now split.
    + split; [|split].
      * intros status. split; [discriminate | intros [_ [_ H]]; discriminate H].
      * split; [intros _; now exists text | reflexivity].
      * intros config H. discriminate H.
  - cbn [is_truthy].
    destruct (is_truthy (Dict.get "OPENAI_API_KEY" environ)); cbn [negb];
      (split; [|split]).
    + intros status. split; [discriminate | intros [_ [H _]]; discriminate H].
    + split; [discriminate | intros [t [Ht _]]; discriminate Ht].
    + intros config H. injection H as <-. now repeat split.
    + intros status. split; [intros H; injection H as <-; now repeat split|].
      intros [-> _]. reflexivity.
    + split; [discriminate | intros [t [Ht _]]; discriminate Ht].
    + intros config H. discriminate H.
Qed.

(** X16.  Starting without a credential under an assigned port.  When
    [PORT] holds a number and no usable credential is set, [load_config]
    returns settings, and with them [/health] reports the credential as
    absent, every [/chat] answers with status 200 and the fallback
    structure that carries the configuration message, and
    [/score_interview] for a known session returns that message as its
    result; the completion API is not consulted. *)
Theorem keyless_start_degrades (environ : Dict.dict string) (text : string)
  (n : Z) :
  Dict.get "PORT" environ = Some text ->
  int text = Some n ->
  is_truthy (Dict.get "OPENAI_API_KEY" environ) = false ->
  exists config,
    load_config int environ = Loaded config
    /\ port config = n
    /\ health (openai_api_key config)
       = jsonify (JObj [("status", JStr "ok");
                        ("openai_key_present", JBool false)])
    /\ (forall limits create k message w,
          snd (chat limits (openai_api_key config) create k message w)
          = Some {| status := 200; body := fallback_reply no_key_message |})
    /\ (forall create k w conversation,
          Dict.get k (user_sessions w) = Some conversation ->
          score_interview_endpoint (openai_api_key config) create k w
          = jsonify (JObj [("scoring_result", JStr no_key_message)])).
Proof.
  intros Hp Hn Hkey. unfold load_config. rewrite Hp, Hn.
  cbn [openai_api_key]. rewrite Hkey. cbn [negb].
  rewrite (port_text_is_truthy text n Hn).
  eexists. split; [reflexivity|]. cbn [port openai_api_key].
  split; [reflexivity|]. split; [|split].
  - unfold health. now rewrite Hkey.
  - intros limits create k message w.
    rewrite (proj2 (chat_session limits _ create k message w)).
    unfold chat_with_gpt. rewrite Hkey. reflexivity.
  - intros create k w conversation H. unfold score_interview_endpoint.
    rewrite (get_some_mem _ _ _ H). cbn [negb].
    unfold score_interview. now rewrite Hkey.
Qed.

End StartUp.

Section StartUpRuns.
Import Py Json Identifier App Spec Shape Config.

Lemma load_config_outcomes_witness :
  let int := fun text =>
    if truthy text && all_chars is_digit text
    then Some (int_of_digits 0 text) else None in
  load_config int [("HOST", "127.0.0.1")] = Exited 1
  /\ load_config int [("PORT", "")] = ValueError.
Proof.
  intros int.
  destruct (load_config_outcomes int eq_refl [("HOST", "127.0.0.1")])
    as [He _].
  destruct (load_config_outcomes int eq_refl [("PORT", "")]) as [_ [Hv _]].
  split.
  - apply (proj2 (He 1)). now repeat split.
  - apply (proj2 Hv). now exists "".
Defined.

Lemma keyless_start_degrades_witness :
  let int := fun text =>
    if truthy text && all_chars is_digit text
    then Some (int_of_digits 0 text) else None in
  exists config,
    load_config int [("PORT", "8080"); ("OPENAI_API_KEY", "")] = Loaded config
    /\ port config = 8080%Z
    /\ health (openai_api_key config)
       = jsonify (JObj [("status", JStr "ok");
                        ("openai_key_present", JBool false)])
    /\ (forall limits create k message w,
          snd (chat limits (openai_api_key config) create k message w)
          = Some {| status := 200; body := fallback_reply no_key_message |})
    /\ (forall create k w conversation,
          Dict.get k (user_sessions w) = Some conversation ->
          score_interview_endpoint (openai_api_key config) create k w
          = jsonify (JObj [("scoring_result", JStr no_key_message)])).
Proof.
  intros int.
  exact (keyless_start_degrades int eq_refl
           [("PORT", "8080"); ("OPENAI_API_KEY", "")] "8080" 8080%Z
           eq_refl eq_refl eq_refl).
Defined.

End StartUpRuns.

Section DebugFlag.
Import Py Json Identifier App Spec Shape Config.
Variable int : string -> option Z.

Lemma lower_char_t (c : ascii) :
  lower_char c = "t"%char <-> c = "t"%char \/ c = "T"%char.
Proof.
  split.
  - destruct c as [[] [] [] [] [] [] [] []]; intros H;
      first [discriminate H | now left | now right].
  - intros [->| ->]; reflexivity.
Qed.

Lemma lower_char_r (c : ascii) :
  lower_char c = "r"%char <-> c = "r"%char \/ c = "R"%char.
Proof.
  split.
  - destruct c as [[] [] [] [] [] [] [] []]; intros H;
      first [discriminate H | now left | now right].
  - intros [->| ->]; reflexivity.
Qed.

Lemma lower_char_u (c : ascii) :
  lower_char c = "u"%char <-> c = "u"%char \/ c = "U"%char.
Proof.
  split.
  - destruct c as [[] [] [] [] [] [] [] []]; intros H;
      first [discriminate H | now left | now right].
  - intros [->| ->]; reflexivity.
Qed.

Lemma lower_char_e (c : ascii) :
  lower_char c = "e"%char <-> c = "e"%char \/ c = "E"%char.
Proof.
  split.
  - destruct c as [[] [] [] [] [] [] [] []]; intros H;
      first [discriminate H | now left | now right].
  - intros [->| ->]; reflexivity.
Qed.

Lemma lower_is_true (d : string) :
  lower d = "true" <->
  exists c1 c2 c3 c4,
    d = String c1 (String c2 (String c3 (String c4 "")))
    /\ (c1 = "t"%char \/ c1 = "T"%char) /\ (c2 = "r"%char \/ c2 = "R"%char)
    /\ (c3 = "u"%char \/ c3 = "U"%char) /\ (c4 = "e"%char \/ c4 = "E"%char).
Proof.
  split.
  - destruct d as [|c1 [|c2 [|c3 [|c4 [|c5 d]]]]]; cbn [lower]; intros H;
      try discriminate H.
    injection H as H1 H2 H3 H4.
    exists c1, c2, c3, c4. split; [reflexivity|].
    now rewrite <- lower_char_t, <- lower_char_r, <- lower_char_u,
      <- lower_char_e.
  - intros [c1 [c2 [c3 [c4 [-> [H1 [H2 [H3 H4]]]]]]]]. cbn [lower].
    apply lower_char_t in H1. apply lower_char_r in H2.
    apply lower_char_u in H3. apply lower_char_e in H4.
    now rewrite H1, H2, H3, H4.
Qed.

(** X17.  The debug flag of the settings is on exactly when [DEBUG] is set
    to the word [true] in some mix of capital and small letters; any other
    text, [1] and [yes] included, and no [DEBUG] at all leave it off. *)
Theorem debug_only_for_true (environ : Dict.dict string) (config : Settings) :
  load_config int environ = Loaded config ->
  debug config = true <->
  exists c1 c2 c3 c4,
    Dict.get "DEBUG" environ
    = Some (String c1 (String c2 (String c3 (String c4 ""))))
    /\ (c1 = "t"%char \/ c1 = "T"%char) /\ (c2 = "r"%char \/ c2 = "R"%char)
    /\ (c3 = "u"%char \/ c3 = "U"%char) /\ (c4 = "e"%char \/ c4 = "E"%char).
Proof.
  intros H.
  assert (Hd : debug config
               = (lower (match Dict.get "DEBUG" environ with
                         | Some d => d
                         | None => "False"
                         end) =? "true")).
  { unfold load_config in H.
    destruct (match Dict.get "PORT" environ with
              | Some text => int text
              | None => Some 5003%Z
              end); [|discriminate H].
    cbn [openai_api_key] in H.
    destruct (negb (is_truthy (Dict.get "OPENAI_API_KEY" environ)));
      [destruct (is_truthy (Dict.get "PORT" environ)); [|discriminate H]|];
      injection H as <-; reflexivity. }
  rewrite Hd, String.eqb_eq, lower_is_true.
  destruct (Dict.get "DEBUG" environ) as [d|].
  - split.
    + intros [c1 [c2 [c3 [c4 [-> Hc]]]]]. now exists c1, c2, c3, c4.
    + intros [c1 [c2 [c3 [c4 [Hs Hc]]]]]. injection Hs as ->.
      now exists c1, c2, c3, c4.
  - split.
    + intros [c1 [c2 [c3 [c4 [Hs _]]]]]. discriminate Hs.
    + intros [c1 [c2 [c3 [c4 [Hs _]]]]]. discriminate Hs.
Qed.

End DebugFlag.

Section DebugFlagRuns.
Import Py Json Identifier App Spec Shape Config.

Lemma debug_only_for_true_witness :
  let config :=
    {| openai_api_key := None; port := 8080; host := "0.0.0.0";
       debug := false |} in
  debug config = true <->
  exists c1 c2 c3 c4,
    Dict.get "DEBUG" [("PORT", "8080"); ("DEBUG", "1")]
    = Some (String c1 (String c2 (String c3 (String c4 ""))))
    /\ (c1 = "t"%char \/ c1 = "T"%char) /\ (c2 = "r"%char \/ c2 = "R"%char)
    /\ (c3 = "u"%char \/ c3 = "U"%char) /\ (c4 = "e"%char \/ c4 = "E"%char).
Proof.
  exact (debug_only_for_true (fun _ => Some 8080%Z)
           [("PORT", "8080"); ("DEBUG", "1")]
           {| openai_api_key := None; port := 8080; host := "0.0.0.0";
              debug := false |}
           eq_refl).
Defined.

End DebugFlagRuns.

(** ** Status codes *)

Section Statuses.
Import Py Json Identifier App Spec Shape.
Variable limits : Limits.
Variable OPENAI_API_KEY : option string.
Variable create : Completion -> string + string.


End Statuses.

Section StatusesRuns.
Import Py Json Identifier App Spec Shape.


End StatusesRuns.
